(** * The terrain pipeline of [src/orbits/driver.js]

    A shallow embedding of the terrain half of the driver: the click handler
    registered in [setup] (input defaults, grid allocation, fault loop, height
    normalisation, grid normals) and [createTerrain].

    JavaScript numbers are IEEE binary64 values, so elevations are primitive
    floats.  Arrays are mutable and shared by reference: the row arrays live
    in a heap, the outer arrays of [grid] and [grid_normals] hold references
    into it.  Exceptions and loops that never exit are outcomes of a small
    state monad.

    [setupGeometry] and [compile] are embedded over a record of the calls
    they make to the WebGL context.  The rest of the terrain driver is
    outside the embedding: [draw], [fillScreen] and [tick] work on the
    canvas, the browser's frame queue and matrix helpers that no file of the
    driver defines, and [setup] itself awaits the network. *)

From Stdlib Require Import ZArith List Floats Lia Bool.
From stdpp Require Import base option list gmap strings.

#[local] Set Warnings "-inexact-float".
#[local] Open Scope Z_scope.
#[local] Open Scope nat_scope.

(** ** JavaScript numbers *)

Module JS.

(** The integer part of a number, as [ToIntegerOrInfinity] computes it:
    [NaN] and the zeros give 0, the infinities give nothing finite. *)
Definition trunc (x : float) : option Z :=
  match Prim2SF x with
  | S754_zero _ | S754_nan => Some 0%Z
  | S754_infinity _ => None
  | S754_finite s m e =>
      let a := if (0 <=? e)%Z then (Z.pos m * 2 ^ e)%Z
               else (Z.pos m / 2 ^ (- e))%Z in
      Some (if s then (- a)%Z else a)
  end.

(** Whether a number has no fractional part. *)
Definition integral (x : float) : bool :=
  match Prim2SF x with
  | S754_zero _ => true
  | S754_finite _ m e => (0 <=? e)%Z || (Z.pos m mod 2 ^ (- e) =? 0)%Z
  | _ => false
  end.

(** [x || d]: the falsy numbers are [NaN], [+0] and [-0]. *)
Definition falsy (x : float) : bool := is_nan x || is_zero x.
Definition or_default (x d : float) : float := if falsy x then d else x.

(** [new Array(len)] with a number argument: the length must be an integer
    in [0, 2^32), anything else is a [RangeError]. *)
Definition array_length (len : float) : option nat :=
  if integral len then
    match trunc len with
    | Some z => if (0 <=? z)%Z && (z <? 2 ^ 32)%Z then Some (Z.to_nat z) else None
    | None => None
    end
  else None.

(** [ToIndex], the length a typed-array constructor derives from a number
    argument: the number is truncated; a negative or unsafe result is a
    [RangeError]. *)
Definition to_index (x : float) : option nat :=
  match trunc x with
  | Some z => if (0 <=? z)%Z && (z <=? 2 ^ 53 - 1)%Z then Some (Z.to_nat z) else None
  | None => None
  end.

(** How often the body of [for (let i = 0; i < bound; i += 1)] runs.  The
    counter stops growing at 2^53, so a larger bound is never reached. *)
Definition trip_count (bound : float) : option nat :=
  match Prim2SF bound with
  | S754_zero _ | S754_nan => Some 0
  | S754_infinity s => if s then Some 0 else None
  | S754_finite true _ _ => Some 0
  | S754_finite false m e =>
      let c := if (0 <=? e)%Z then (Z.pos m * 2 ^ e)%Z
               else ((Z.pos m + 2 ^ (- e) - 1) / 2 ^ (- e))%Z in
      if (c <=? 2 ^ 53)%Z then Some (Z.to_nat c) else None
  end.

(** [Math.max] and [Math.min] over an argument list ([f.apply(_, list)]):
    any [NaN] argument makes the result [NaN]; [+0] is larger than [-0]. *)
Definition is_neg_zero (x : float) : bool :=
  match classify x with NZero => true | _ => false end.
Definition is_pos_zero (x : float) : bool :=
  match classify x with PZero => true | _ => false end.

Definition max_step (highest number : float) : float :=
  if is_pos_zero number && is_neg_zero highest then number
  else if (highest <? number)%float then number else highest.

Definition min_step (lowest number : float) : float :=
  if is_neg_zero number && is_pos_zero lowest then number
  else if (number <? lowest)%float then number else lowest.

Definition Math_max (args : list float) : float :=
  if existsb is_nan args then nan else fold_left max_step args neg_infinity.

Definition Math_min (args : list float) : float :=
  if existsb is_nan args then nan else fold_left min_step args infinity.

Definition Math_PI : float := 0x1.921fb54442d18p+1%float.

(** The values the handler's scratch globals [n], [s], [e], [w] can hold. *)
Inductive js_value : Type :=
  | Undefined
  | Num (x : float).

Definition to_number (v : js_value) : float :=
  match v with Undefined => nan | Num x => x end.

(** Typed arrays.  Called with a number, the constructors take it as the
    length and ignore further arguments; the array is zero-filled. *)
Inductive elem_kind : Type := Float32 | Int32.

Record typed_array : Type := TypedArray {
  ta_kind : elem_kind;
  ta_elems : list float
}.

Inductive exn : Type := RangeError | TypeError | ReferenceError.

End JS.

Export JS.

(** ** The store

    [grid] and [grid_normals] are globals of the page, created by the first
    click.  Their rows are arrays of numbers on the heap; an outer array is
    the list of the references it holds.  [terrain] and [g] are the globals
    [createTerrain] touches: it assigns the first and only reads the second,
    which no line of the driver ever assigns.  The store keeps [g] optional:
    unassigned, as the driver leaves it, or bound by another script of the
    page to an object of the shape of [terrain]. *)

Definition loc : Type := positive.

Record geometry : Type := Geometry {
  triangles : list Z;
  attr_position : list Z;      (* attributes[0] *)
  attr_color : list float      (* attributes[1] *)
}.

Record store : Type := Store {
  heap : gmap loc (list float);
  grid : option (list loc);
  grid_normals : option (list loc);
  var_n : js_value;
  var_s : js_value;
  var_e : js_value;
  var_w : js_value;
  draws : nat;                 (* calls of Math.random so far *)
  terrain : option geometry;
  g : option geometry
}.

Definition with_heap (h : gmap loc (list float)) (st : store) : store :=
  Store h (grid st) (grid_normals st) (var_n st) (var_s st) (var_e st)
        (var_w st) (draws st) (terrain st) (g st).
Definition with_grid (o : list loc) (st : store) : store :=
  Store (heap st) (Some o) (grid_normals st) (var_n st) (var_s st) (var_e st)
        (var_w st) (draws st) (terrain st) (g st).
Definition with_grid_normals (o : list loc) (st : store) : store :=
  Store (heap st) (grid st) (Some o) (var_n st) (var_s st) (var_e st)
        (var_w st) (draws st) (terrain st) (g st).
Definition with_n (v : js_value) (st : store) : store :=
  Store (heap st) (grid st) (grid_normals st) v (var_s st) (var_e st)
        (var_w st) (draws st) (terrain st) (g st).
Definition with_s (v : js_value) (st : store) : store :=
  Store (heap st) (grid st) (grid_normals st) (var_n st) v (var_e st)
        (var_w st) (draws st) (terrain st) (g st).
Definition with_e (v : js_value) (st : store) : store :=
  Store (heap st) (grid st) (grid_normals st) (var_n st) (var_s st) v
        (var_w st) (draws st) (terrain st) (g st).
Definition with_w (v : js_value) (st : store) : store :=
  Store (heap st) (grid st) (grid_normals st) (var_n st) (var_s st) (var_e st)
        v (draws st) (terrain st) (g st).
Definition with_draws (k : nat) (st : store) : store :=
  Store (heap st) (grid st) (grid_normals st) (var_n st) (var_s st) (var_e st)
        (var_w st) k (terrain st) (g st).
Definition with_terrain (t : geometry) (st : store) : store :=
  Store (heap st) (grid st) (grid_normals st) (var_n st) (var_s st) (var_e st)
        (var_w st) (draws st) (Some t) (g st).
Definition with_g (t : geometry) (st : store) : store :=
  Store (heap st) (grid st) (grid_normals st) (var_n st) (var_s st) (var_e st)
        (var_w st) (draws st) (terrain st) (Some t).

(** The page before the first click and before any [createTerrain]. *)
Definition page_load : store :=
  Store ∅ None None Undefined Undefined Undefined Undefined 0 None None.

(** ** Effects *)

(** A statement ends normally, throws, or sits in a loop whose bound is
    never reached ([Unbounded]: such a loop only ends if its body throws,
    and the model does not follow it). *)
Inductive outcome (A : Type) : Type :=
  | Ok (a : A) (st : store)
  | Throw (e : exn) (st : store)
  | Unbounded.
Arguments Ok {A} a st.
Arguments Throw {A} e st.
Arguments Unbounded {A}.

Definition M (A : Type) : Type := store -> outcome A.

Definition ret {A} (a : A) : M A := fun st => Ok a st.
Definition throw {A} (e : exn) : M A := fun st => Throw e st.
Definition bind {A B} (m : M A) (k : A -> M B) : M B :=
  fun st => match m st with
            | Ok a st' => k a st'
            | Throw e st' => Throw e st'
            | Unbounded => Unbounded
            end.
Definition modify (f : store -> store) : M unit := fun st => Ok tt (f st).

Declare Scope js_scope.
Delimit Scope js_scope with js.
Notation "'let*' x := m 'in' k" := (bind m (fun x => k))
  (at level 10, x name, m at level 100, k at level 200) : js_scope.
Notation "m ;;; k" := (bind m (fun _ => k))
  (at level 100, k at level 200, right associativity) : js_scope.
#[local] Open Scope js_scope.

(** The store a run stops in, if the model follows it to its end. *)
Definition final {A} (o : outcome A) : option store :=
  match o with Ok _ st | Throw _ st => Some st | Unbounded => None end.

(** [for (let i = start; ...; i += 1) body], run [k] times. *)
Fixpoint for_loop (k : nat) (i : nat) (body : nat -> M unit) : M unit :=
  match k with
  | 0 => ret tt
  | S k' => body i ;;; for_loop k' (S i) body
  end.

(** [for (let i = 0; i < bound; i += 1) body] *)
Definition for_lt (bound : float) (body : nat -> M unit) : M unit :=
  match trip_count bound with
  | Some k => for_loop k 0 body
  | None => fun _ => Unbounded
  end.

(** *** Arrays *)

(** The row a reference points to.  References are created by allocation
    only, so the default is never taken. *)
Definition row_of (st : store) (r : loc) : list float :=
  default [] (heap st !! r).

(** [row[j] = x]: inside the row the cell is overwritten; beyond its end the
    array grows, and the cells skipped read as [undefined], that is as [NaN]
    wherever this program uses them. *)
Definition js_store (j : nat) (x : float) (row : list float) : list float :=
  if j <? length row then <[j := x]> row
  else row ++ replicate (j - length row) nan ++ [x].

Definition row_get (r : loc) (j : nat) : M js_value :=
  fun st => Ok (match row_of st r !! j with Some x => Num x | None => Undefined end) st.

Definition row_set (r : loc) (j : nat) (x : float) : M unit :=
  modify (fun st => with_heap (<[r := js_store j x (row_of st r)]> (heap st)) st).

(** [a[i]] for a global [a] holding rows, as the base of [a[i][j]]: an
    unassigned global is a [ReferenceError], a missing row is [undefined]
    and indexing it a [TypeError]. *)
Definition outer_row (a : store -> option (list loc)) (i : nat) : M loc :=
  fun st => match a st with
            | None => Throw ReferenceError st
            | Some rows => match rows !! i with
                           | Some r => Ok r st
                           | None => Throw TypeError st
                           end
            end.

(** [new Array(len).fill(0)] *)
Definition new_row (n : nat) : M loc :=
  fun st => let r := fresh (dom (heap st)) in
            Ok r (with_heap (<[r := replicate n 0%float]> (heap st)) st).

(** [new Array(gridsize).fill(new Array(gridsize).fill(0))]: one row is
    created and every slot of the outer array is filled with it. *)
Definition new_grid (gridsize : float) : M (list loc) :=
  match array_length gridsize with
  | None => throw RangeError
  | Some n => let* r := new_row n in ret (replicate n r)
  end.

Definition new_typed_array (k : elem_kind) (len : float) : M typed_array :=
  match to_index len with
  | None => throw RangeError
  | Some n => ret (TypedArray k (replicate n 0%float))
  end.

(** [i] as a loop counter holds it. *)
Definition of_nat (i : nat) : float := of_uint63 (Uint63.of_Z (Z.of_nat i)).

(** ** The click handler *)

Section Handler.

(** What the page supplies and the driver does not define: the random
    source and the trigonometry of [Math], and the vector helpers [sub] and
    [dot] the fault loop calls.  The helpers are pure; they may throw.

    [argument_limit] is the engine's: [f.apply(_, list)] passes the
    elements of [list] as arguments, and an engine passes only so many;
    with a longer list the call throws a [RangeError] before [f] runs. *)
Variable random_source : nat -> float.
Variable Math_cos : float -> float.
Variable sub : typed_array -> typed_array -> exn + typed_array.
Variable dot : typed_array -> typed_array -> exn + float.
Variable argument_limit : N.

Definition Math_random : M float :=
  fun st => Ok (random_source (draws st)) (with_draws (S (draws st)) st).

Definition call {A} (r : exn + A) : M A :=
  match r with inl e => throw e | inr a => ret a end.

(** [grid[i][j] = f(grid[i][j])]: the shape of [grid[i][j] -= 0.01], of
    [grid[i][j] += 0.01] and of the assignment in the normalisation loop. *)
Definition grid_adjust (i j : nat) (f : float -> float) : M unit :=
  let* r := outer_row grid i in
  let* v := row_get r j in
  row_set r j (f (to_number v)).

(** The body of the two vertex loops of one fault.  [vertex] is built from
    [x], as the source does, not from [i] and [j]. *)
Definition fault_vertex (x : float) (p normal : typed_array) (i j : nat) : M unit :=
  let* vertex := new_typed_array Int32 x in
  let* d := call (sub vertex p) in
  let* val := call (dot d normal) in
  if (val <? 0)%float then grid_adjust i j (fun h => h - 0.01)%float
  else if (0 <? val)%float then grid_adjust i j (fun h => h + 0.01)%float
  else ret tt.

(** One turn of the fault loop.  Only the first argument of a typed-array
    constructor counts when it is a number, so [y], [Math.sin(theta)] and
    the trailing [0] leave no trace. *)
Definition apply_fault (gridsize : float) : M unit :=
  let* r1 := Math_random in
  let x := (r1 * gridsize)%float in
  let* r2 := Math_random in
  let y := (r2 * gridsize)%float in
  let* p := new_typed_array Float32 x in
  let* r3 := Math_random in
  let theta := (r3 * Math_PI * 2)%float in
  let* normal := new_typed_array Float32 (Math_cos theta) in
  for_lt gridsize (fun i => for_lt gridsize (fun j => fault_vertex x p normal i j)).

Definition apply_faults (gridsize faults : float) : M unit :=
  for_lt faults (fun _ => apply_fault gridsize).

(** Whether [apply] passes the list [args] on. *)
Definition accepts (args : list float) : bool :=
  (N.of_nat (length args) <=? argument_limit)%N.

(** [f.apply(_, args)] for [f] one of [Math.max] and [Math.min]. *)
Definition apply_to (f : list float -> float) (args : list float) : M float :=
  if accepts args then ret (f args) else throw RangeError.

(** [grid.map(function(row) { return f.apply(Math, row) })]: the callback
    runs on the rows in order and changes nothing, so the first row that
    is too long for [apply] ends the [map] with its [RangeError]. *)
Definition grid_map (f : list float -> float) : M (list float) :=
  fun st => match grid st with
            | None => Throw ReferenceError st
            | Some rows =>
                if forallb (fun r => accepts (row_of st r)) rows
                then Ok (map (fun r => f (row_of st r)) rows) st
                else Throw RangeError st
            end.

(** The cell update of the normalisation loop. *)
Definition rescale (max min h : float) : float :=
  ((h - ((max + min) / 2)) / (max - min))%float.

(** The normalisation block.  [min] is taken over [maxRow], as in the
    source; [minRow] is computed and not used. *)
Definition normalize_heights (gridsize : float) : M unit :=
  let* maxRow := grid_map Math_max in
  let* max := apply_to Math_max maxRow in
  let* minRow := grid_map Math_min in
  let* min := apply_to Math_min maxRow in
  for_lt gridsize (fun i => for_lt gridsize (fun j =>
    grid_adjust i j (rescale max min))).

(** [gridsize[a][b]]: [gridsize] is a number.  A number has no indexed
    properties, so [gridsize[a]] is [undefined], and reading a property of
    [undefined] throws. *)
Definition number_get (x : float) (a : nat) : js_value := Undefined.
Definition value_get (v : js_value) (b : nat) : M js_value :=
  match v with
  | Undefined => throw TypeError
  | Num x => ret (number_get x b)
  end.
Definition gridsize_at (gridsize : float) (a b : nat) : M js_value :=
  value_get (number_get gridsize a) b.

Definition set_n (v : js_value) : M unit := modify (with_n v).
Definition set_s (v : js_value) : M unit := modify (with_s v).
Definition set_e (v : js_value) : M unit := modify (with_e v).
Definition set_w (v : js_value) : M unit := modify (with_w v).

(** The body of the two loops of the normals block. *)
Definition normal_vertex (gridsize : float) (i j : nat) : M unit :=
  set_n (Num (-1)%float) ;;;
  set_s (Num (-1)%float) ;;;
  set_e (Num (-1)%float) ;;;
  set_w (Num (-1)%float) ;;;
  (if i =? 0 then
     (let* v := gridsize_at gridsize i j in set_n v) ;;;
     (let* v := gridsize_at gridsize (i + 1) j in set_s v)
   else if (of_nat i =? gridsize - 1)%float then
     (let* v := gridsize_at gridsize (i - 1) j in set_n v) ;;;
     (let* v := gridsize_at gridsize i j in set_s v)
   else
     (let* v := gridsize_at gridsize (i + 1) j in set_n v) ;;;
     (let* v := gridsize_at gridsize (i + 1) j in set_s v)) ;;;
  (if j =? 0 then
     (let* v := gridsize_at gridsize i j in set_w v) ;;;
     (let* v := gridsize_at gridsize i (j + 1) in set_e v)
   else if (of_nat j =? gridsize - 1)%float then
     (let* v := gridsize_at gridsize i j in set_e v) ;;;
     (let* v := gridsize_at gridsize i (j - 1) in set_w v)
   else
     (let* v := gridsize_at gridsize i (j - 1) in set_w v) ;;;
     (let* v := gridsize_at gridsize i (j + 1) in set_e v)) ;;;
  let* r := outer_row grid_normals i in
  fun st =>
    row_set r j ((to_number (var_n st) - to_number (var_s st))
                 * (to_number (var_w st) - to_number (var_e st)))%float st.

Definition compute_normals (gridsize : float) : M unit :=
  for_lt gridsize (fun i => for_lt gridsize (fun j => normal_vertex gridsize i j)).

Definition allocate (gridsize : float) : M unit :=
  (let* o := new_grid gridsize in modify (with_grid o)) ;;;
  (let* o := new_grid gridsize in modify (with_grid_normals o)).

(** The first [k] of the four blocks of the listener, in order. *)
Definition blocks (gridsize faults : float) (k : nat) : M unit :=
  match k with
  | 0 => ret tt
  | 1 => allocate gridsize
  | 2 => allocate gridsize ;;; apply_faults gridsize faults
  | 3 => allocate gridsize ;;; apply_faults gridsize faults ;;;
         normalize_heights gridsize
  | _ => allocate gridsize ;;; apply_faults gridsize faults ;;;
         normalize_heights gridsize ;;; compute_normals gridsize
  end.

(** The listener of [#submit].  Its arguments are what [Number(...)] made
    of the two input fields. *)
Definition on_submit (gridsize_field faults_field : float) : M unit :=
  let gridsize := or_default gridsize_field 2 in
  let faults := or_default faults_field 0 in
  blocks gridsize faults 4.

End Handler.

(** ** [createTerrain] *)

(** [createTerrain] is taken as a function of its arguments; the one call
    in [setup] passes it names that the driver defines nowhere.  Indices
    and grid coordinates are integers; they are exact in binary64 as long
    as they stay below 2^53, and are kept as integers here. *)

Definition empty_geometry : geometry := Geometry [] [] [].

(** [terrain.triangles.push(a, b, c)] *)
Definition terrain_push_triangle (a b c : Z) : M unit :=
  fun st => match terrain st with
            | None => Throw ReferenceError st
            | Some t => Ok tt (with_terrain
                (Geometry (triangles t ++ [a; b; c]) (attr_position t) (attr_color t)) st)
            end.

(** [g.attributes[0].push(a, b, c)] and [g.attributes[1].push(r, gr, b)]:
    they address the global [g], not [terrain]. *)
Definition g_push_position (a b c : Z) : M unit :=
  fun st => match g st with
            | None => Throw ReferenceError st
            | Some t => Ok tt (with_g
                (Geometry (triangles t) (attr_position t ++ [a; b; c]) (attr_color t)) st)
            end.
Definition g_push_color (a b c : float) : M unit :=
  fun st => match g st with
            | None => Throw ReferenceError st
            | Some t => Ok tt (with_g
                (Geometry (triangles t) (attr_position t) (attr_color t ++ [a; b; c])) st)
            end.

Definition triangle_count (gridsize : Z) : Z := (gridsize - 1) * (gridsize - 1) * 2.

Definition terrain_step (gridsize : Z) (i : nat) : M unit :=
  let i := Z.of_nat i in
  terrain_push_triangle (i * 3) (i * 3 + 1) (i * 3 + 2) ;;;
  g_push_position i (i + 1) (i + gridsize) ;;;
  g_push_color 0.8%float 0.6%float 0.4%float.

Definition createTerrain (gridsize : Z) (faults : float) : M geometry :=
  modify (with_terrain empty_geometry) ;;;
  for_loop (Z.to_nat (triangle_count gridsize)) 0 (terrain_step gridsize) ;;;
  fun st => match terrain st with
            | Some t => Ok t st
            | None => Throw ReferenceError st
            end.

(** ** Vocabulary of the properties *)

(** [a[i][j]] read in a store, when the row and the cell exist. *)
Definition cell (a : store -> option (list loc)) (st : store) (i j : nat) : option float :=
  match a st with
  | Some rows => match rows !! i with
                 | Some r => row_of st r !! j
                 | None => None
                 end
  | None => None
  end.

(** The store after [a[i][j] = x]. *)
Definition write (a : store -> option (list loc)) (i j : nat) (x : float) (st : store) : option store :=
  match (let* r := outer_row a i in row_set r j x) st with
  | Ok _ st' => Some st'
  | _ => None
  end.

(** The stores the handler can be in once both grids exist: after the
    allocation, every effect is a cell assignment through some row
    reference, an assignment to a scratch global, or a draw from the random
    source. *)
Inductive pipeline_point (gridsize : float) : store -> Prop :=
  | pp_allocated st st' :
      allocate gridsize st = Ok tt st' -> pipeline_point gridsize st'
  | pp_row_set st r j x :
      pipeline_point gridsize st ->
      pipeline_point gridsize (with_heap (<[r := js_store j x (row_of st r)]> (heap st)) st)
  | pp_n st v : pipeline_point gridsize st -> pipeline_point gridsize (with_n v st)
  | pp_s st v : pipeline_point gridsize st -> pipeline_point gridsize (with_s v st)
  | pp_e st v : pipeline_point gridsize st -> pipeline_point gridsize (with_e v st)
  | pp_w st v : pipeline_point gridsize st -> pipeline_point gridsize (with_w v st)
  | pp_draw st k : pipeline_point gridsize st -> pipeline_point gridsize (with_draws k st).

(** One sweep of [for (j ...) row[j] = f(row[j])] over [k] cells from [j]. *)
Fixpoint sweep (f : float -> float) (k j : nat) (row : list float) : list float :=
  match k with
  | 0 => row
  | S k' => sweep f k' (S j)
              (js_store j (f (to_number (match row !! j with
                                         | Some x => Num x
                                         | None => Undefined
                                         end))) row)
  end.

(** What [createTerrain] pushes during [k] turns of its loop from turn [i]. *)
Definition index_triples (i k : nat) : list Z :=
  flat_map (fun a => let a := Z.of_nat a in [a * 3; a * 3 + 1; a * 3 + 2]%Z) (seq i k).
Definition position_triples (gridsize : Z) (i k : nat) : list Z :=
  flat_map (fun a => let a := Z.of_nat a in [a; a + 1; a + gridsize]%Z) (seq i k).
Definition color_triples (k : nat) : list float :=
  concat (replicate k [0.8; 0.6; 0.4]%float).

(** What a caller of [createTerrain] can see of a run: how it ended, and
    the two globals that hold mesh data. *)
Definition mesh_view (o : outcome geometry)
  : option (exn + geometry) * option geometry * option geometry :=
  match o with
  | Ok t st => (Some (inr t), terrain st, g st)
  | Throw e st => (Some (inl e), terrain st, g st)
  | Unbounded => (None, None, None)
  end.

(** Modelled from the spec: [sub] and [dot] are called by the fault loop and
    defined in no file of the driver; the spec reads them as the difference
    of two vectors and the dot product. *)
Definition vec_sub (a b : typed_array) : exn + typed_array :=
  inr (TypedArray (ta_kind a) (zip_with PrimFloat.sub (ta_elems a) (ta_elems b))).
Definition vec_dot (a b : typed_array) : exn + float :=
  inr (fold_left PrimFloat.add (zip_with PrimFloat.mul (ta_elems a) (ta_elems b)) 0%float).

(** [m] keeps [P]: from a store where [P] holds, [m] ends, normally or by
    an exception, in a store where [P] holds. *)
Definition keeps (P : store -> Prop) {A} (m : M A) : Prop :=
  forall st, P st ->
    match m st with
    | Ok _ st' | Throw _ st' => P st'
    | Unbounded => True
    end.

(** The signed distance of vertex [(i, j)] to the fault through [(px, py)]
    with normal [(nx, ny)], in the words of the spec, to set beside what the
    fault loop computes. *)
Definition spec_signed_distance (i j : nat) (px py nx ny : float) : float :=
  ((of_nat i - px) * nx + (of_nat j - py) * ny)%float.

(** The page behind the sample runs: [Math.random()] returns 0.5, 0.5 and
    then 0, so that the first fault has [x = y = 1.5] for a grid size of 3
    and [theta = 0]; [Math.cos] is given at 0, the only angle those runs
    pass it. *)
Definition sample_draws (k : nat) : float :=
  match k with 0 | 1 => 0.5%float | _ => 0%float end.
Definition cos_at_zero (theta : float) : float :=
  if is_zero theta then 1%float else nan.

(** The engine behind the sample runs passes up to 65536 arguments. *)
Definition sample_limit : N := 65536.

(** A helper for the sample runs that puts every vertex below the fault. *)
Definition dot_below (a b : typed_array) : exn + float := inr (-1)%float.

(** A height field as the handler holds it: [n] row slots, all of them the
    one array [r], which has [n] cells. *)
Definition shared_field (n : nat) (st : store) : Prop :=
  exists r row, grid st = Some (replicate n r)
    /\ heap st !! r = Some row /\ length row = n.

(** ** The WebGL context

    [compile] and [setupGeometry] talk to the WebGL context, which is
    outside the driver.  A call that changes the context is recorded, in
    order, with its arguments; a call that creates an object returns a
    fresh handle; the answers to queries are parameters of [compile]. *)

Module GL.

Definition handle : Type := nat.

Inductive target : Type := ARRAY_BUFFER | ELEMENT_ARRAY_BUFFER.
Inductive shader_type : Type := VERTEX_SHADER | FRAGMENT_SHADER.
Inductive draw_mode : Type := TRIANGLES.
Inductive index_type : Type := UNSIGNED_SHORT.

(** A number of a mesh.  Integers are kept exact, as in [createTerrain]. *)
Inductive num : Type :=
  | Int (z : Z)
  | Dbl (x : float).

Inductive buffer_data : Type :=
  | Float32Data (xs : list float)
  | Uint16Data (xs : list Z).

(** The calls the two functions make.  [bufferData] always passes
    [STATIC_DRAW]; [vertexAttribPointer] always passes [FLOAT], [false], 0
    and 0 after the index and the size, and a size of [None] is the
    [undefined] the source hands over when the first element has no
    [length]. *)
Inductive call : Type :=
  | createShader (t : shader_type) (s : handle)
  | shaderSource (s : handle) (source : string)
  | compileShader (s : handle)
  | createProgram (p : handle)
  | attachShader (p s : handle)
  | linkProgram (p : handle)
  | createVertexArray (a : handle)
  | bindVertexArray (a : handle)
  | createBuffer (b : handle)
  | bindBuffer (t : target) (b : handle)
  | bufferData (t : target) (d : buffer_data)
  | vertexAttribPointer (index : nat) (size : option nat)
  | enableVertexAttribArray (index : nat)
  | console_error (message : string).

Record context : Type := Context {
  calls : list call;           (* oldest first *)
  next_handle : handle
}.

(** What a function of this part throws: an exception of the language, or
    [Error(message)]. *)
Inductive thrown : Type :=
  | Builtin (e : exn)
  | Error (message : string).

Inductive result (A : Type) : Type :=
  | Done (a : A) (c : context)
  | Raised (e : thrown) (c : context).
Arguments Done {A} a c.
Arguments Raised {A} e c.

Definition G (A : Type) : Type := context -> result A.

Definition ret {A} (a : A) : G A := fun c => Done a c.
Definition raise {A} (e : thrown) : G A := fun c => Raised e c.
Definition bind {A B} (m : G A) (k : A -> G B) : G B :=
  fun c => match m c with
           | Done a c' => k a c'
           | Raised e c' => Raised e c'
           end.

Definition emit (k : call) : G unit :=
  fun c => Done tt (Context (calls c ++ [k]) (next_handle c)).

(** A creating call: a fresh handle, and the call recorded with it. *)
Definition create (k : handle -> call) : G handle :=
  fun c => Done (next_handle c)
                (Context (calls c ++ [k (next_handle c)]) (S (next_handle c))).

Fixpoint for_loop (k : nat) (i : nat) (body : nat -> G unit) : G unit :=
  match k with
  | 0 => ret tt
  | S k' => bind (body i) (fun _ => for_loop k' (S i) body)
  end.

(** [new Uint16Array(list)] stores each number truncated, modulo 2^16;
    [NaN] and the infinities become 0. *)
Definition to_uint16 (x : num) : Z :=
  match x with
  | Int z => (z mod 65536)%Z
  | Dbl d => match trunc d with
             | Some z => (z mod 65536)%Z
             | None => 0%Z
             end
  end.

(** [new Float32Array(list)] stores each number rounded to binary32, to
    nearest, ties to even. *)
Definition fround (x : num) : float :=
  match x with
  | Int z => SF2Prim (binary_normalize 24 128 z 0 false)
  | Dbl d => SF2Prim (match Prim2SF d with
                      | S754_finite s m e => binary_round 24 128 s m e
                      | sf => sf
                      end)
  end.

End GL.

Declare Scope gl_scope.
Delimit Scope gl_scope with gl.
Notation "'let*' x := m 'in' k" := (GL.bind m (fun x => k))
  (at level 10, x name, m at level 100, k at level 200) : gl_scope.
Notation "m ;;; k" := (GL.bind m (fun _ => k))
  (at level 100, k at level 200, right associativity) : gl_scope.

(** ** [setupGeometry] *)

(** The object [setupGeometry] is given: [triangles] and each entry of
    [attributes] are arrays whose elements are numbers or arrays of numbers,
    as in the meshes of the page. *)
Inductive item : Type :=
  | Scalar (x : GL.num)
  | Vector (xs : list GL.num).

Record mesh_object : Type := MeshObject {
  mesh_triangles : list item;
  mesh_attributes : list (list item)
}.

(** What [setupGeometry] returns. *)
Record drawable : Type := Drawable {
  mode : GL.draw_mode;
  count : nat;
  index_type : GL.index_type;
  vao : GL.handle
}.

(** [a.flat()]: the elements that are arrays are replaced by their
    elements. *)
Definition flat (a : list item) : list GL.num :=
  flat_map (fun it => match it with Scalar x => [x] | Vector xs => xs end) a.

(** [a[0].length]: of an array its length, of a number [undefined]; with no
    first element, reading [length] of [undefined] throws. *)
Definition first_length (a : list item) : GL.G (option nat) :=
  match a with
  | [] => GL.raise (GL.Builtin TypeError)
  | Scalar _ :: _ => GL.ret None
  | Vector xs :: _ => GL.ret (Some (length xs))
  end.

(** The body of the loop over [geom.attributes]. *)
Definition upload_attribute (geom : mesh_object) (i : nat) : GL.G unit :=
  (let* buf := GL.create GL.createBuffer in
   GL.emit (GL.bindBuffer GL.ARRAY_BUFFER buf) ;;;
   match mesh_attributes geom !! i with
   | None => GL.raise (GL.Builtin TypeError)
   | Some a =>
       let f32 := map GL.fround (flat a) in
       GL.emit (GL.bufferData GL.ARRAY_BUFFER (GL.Float32Data f32)) ;;;
       let* size := first_length a in
       GL.emit (GL.vertexAttribPointer i size) ;;;
       GL.emit (GL.enableVertexAttribArray i)
   end)%gl.

Definition setupGeometry (geom : mesh_object) : GL.G drawable :=
  (let* triangleArray := GL.create GL.createVertexArray in
   GL.emit (GL.bindVertexArray triangleArray) ;;;
   GL.for_loop (length (mesh_attributes geom)) 0 (upload_attribute geom) ;;;
   let indices := map GL.to_uint16 (flat (mesh_triangles geom)) in
   let* indexBuffer := GL.create GL.createBuffer in
   GL.emit (GL.bindBuffer GL.ELEMENT_ARRAY_BUFFER indexBuffer) ;;;
   GL.emit (GL.bufferData GL.ELEMENT_ARRAY_BUFFER (GL.Uint16Data indices)) ;;;
   GL.ret (Drawable GL.TRIANGLES (length indices) GL.UNSIGNED_SHORT triangleArray))%gl.

(** The object [createTerrain] returns, as [setupGeometry] reads it:
    [triangles] and the two attribute arrays hold numbers, no arrays. *)
Definition as_mesh_object (t : geometry) : mesh_object :=
  MeshObject (map (fun z => Scalar (GL.Int z)) (triangles t))
             [map (fun z => Scalar (GL.Int z)) (attr_position t);
              map (fun x => Scalar (GL.Dbl x)) (attr_color t)].

(** What the loop of [setupGeometry] has recorded once it is through the
    attribute arrays [attrs], the first of them with index [i] and buffer
    [buf]: it stops behind the data of the first empty array. *)
Fixpoint upload_calls (buf : GL.handle) (i : nat) (attrs : list (list item))
    : list GL.call :=
  match attrs with
  | [] => []
  | a :: rest =>
      [GL.createBuffer buf; GL.bindBuffer GL.ARRAY_BUFFER buf;
       GL.bufferData GL.ARRAY_BUFFER (GL.Float32Data (map GL.fround (flat a)))]
      ++ match a with
         | [] => []
         | it :: _ =>
             [GL.vertexAttribPointer i
                (match it with Scalar _ => None | Vector xs => Some (length xs) end);
              GL.enableVertexAttribArray i]
             ++ upload_calls (S buf) (S i) rest
         end
  end.

(** The position of the first empty array among [attrs]. *)
Fixpoint first_empty (attrs : list (list item)) : option nat :=
  match attrs with
  | [] => None
  | [] :: _ => Some 0
  | _ :: rest => S <$> first_empty rest
  end.

(** The mesh behind the sample runs of [setupGeometry]: one triangle, with
    a position and a colour for each of its corners. *)
Definition sample_mesh : mesh_object :=
  MeshObject
    [Vector [GL.Int 0; GL.Int 1; GL.Int 2]]
    [[Vector [GL.Dbl 0; GL.Dbl 0; GL.Dbl 0]; Vector [GL.Dbl 1; GL.Dbl 0; GL.Dbl 0];
      Vector [GL.Dbl 0; GL.Dbl 1; GL.Dbl 0]];
     [Vector [GL.Dbl 0.8; GL.Dbl 0.6; GL.Dbl 0.4; GL.Int 1];
      Vector [GL.Dbl 0.8; GL.Dbl 0.6; GL.Dbl 0.4; GL.Int 1];
      Vector [GL.Dbl 0.8; GL.Dbl 0.6; GL.Dbl 0.4; GL.Int 1]]].

(** ** [compile] *)

Record program : Type := Program {
  program_handle : GL.handle;
  uniforms : gmap string (option nat)
}.

Section Compile.

(** The answers of the context: whether a source compiles and two sources
    link, the logs it keeps, the number of active uniforms of the linked
    program, the name [getActiveUniform] reports at an index ([None] when it
    returns [null]) and the location of a name ([None] for [null]). *)
Variable compile_status : GL.shader_type -> string -> bool.
Variable shader_info_log : GL.shader_type -> string -> string.
Variable link_status : string -> string -> bool.
Variable program_info_log : string -> string -> string.
Variable active_uniforms : string -> string -> nat.
Variable active_uniform_name : string -> string -> nat -> option string.
Variable uniform_location : string -> string -> string -> option nat.

(** [uniforms[name] = location] on the object literal [{}]: the map holds
    the object's own properties, and an assignment to [__proto__] goes to
    the setter the object inherits and makes none. *)
Definition set_uniform (name : string) (location : option nat)
    (u : gmap string (option nat)) : gmap string (option nat) :=
  if String.eqb name "__proto__" then u else <[name := location]> u.

(** The loop that fills [uniforms], [k] turns from index [i]. *)
Fixpoint collect_uniforms (vs_source fs_source : string) (k i : nat)
    (u : gmap string (option nat)) : GL.G (gmap string (option nat)) :=
  match k with
  | 0 => GL.ret u
  | S k' =>
      match active_uniform_name vs_source fs_source i with
      | None => GL.raise (GL.Builtin TypeError)
      | Some name =>
          collect_uniforms vs_source fs_source k' (S i)
            (set_uniform name (uniform_location vs_source fs_source name) u)
      end
  end.

Definition compile (vs_source fs_source : string) : GL.G program :=
  (let* vs := GL.create (GL.createShader GL.VERTEX_SHADER) in
   GL.emit (GL.shaderSource vs vs_source) ;;;
   GL.emit (GL.compileShader vs) ;;;
   (if compile_status GL.VERTEX_SHADER vs_source then GL.ret tt
    else
      GL.emit (GL.console_error (shader_info_log GL.VERTEX_SHADER vs_source)) ;;;
      GL.raise (GL.Error "Vertex shader compilation failed")) ;;;
   let* fs := GL.create (GL.createShader GL.FRAGMENT_SHADER) in
   GL.emit (GL.shaderSource fs fs_source) ;;;
   GL.emit (GL.compileShader fs) ;;;
   (if compile_status GL.FRAGMENT_SHADER fs_source then GL.ret tt
    else
      GL.emit (GL.console_error (shader_info_log GL.FRAGMENT_SHADER fs_source)) ;;;
      GL.raise (GL.Error "Fragment shader compilation failed")) ;;;
   let* program := GL.create GL.createProgram in
   GL.emit (GL.attachShader program vs) ;;;
   GL.emit (GL.attachShader program fs) ;;;
   GL.emit (GL.linkProgram program) ;;;
   (if link_status vs_source fs_source then GL.ret tt
    else
      GL.emit (GL.console_error (program_info_log vs_source fs_source)) ;;;
      GL.raise (GL.Error "Linking failed")) ;;;
   let* uniforms :=
     collect_uniforms vs_source fs_source
       (active_uniforms vs_source fs_source) 0 ∅ in
   GL.ret (Program program uniforms))%gl.

End Compile.

(** The context behind the sample runs of [compile]: every source but the
    empty one compiles, any two sources link, and the linked program has
    the active uniforms [mv] and [p], at the locations 0 and 1. *)
Definition sample_compile_status (t : GL.shader_type) (source : string) : bool :=
  negb (String.eqb source EmptyString).
Definition sample_shader_log (t : GL.shader_type) (source : string) : string :=
  "ERROR: 0:1: unexpected end of file".
Definition sample_link_status (vs_source fs_source : string) : bool := true.
Definition sample_program_log (vs_source fs_source : string) : string := EmptyString.
Definition sample_active_uniforms (vs_source fs_source : string) : nat := 2.
Definition sample_uniform_name (vs_source fs_source : string) (i : nat)
    : option string :=
  match i with 0 => Some "mv" | 1 => Some "p" | _ => None end.
Definition sample_uniform_location (vs_source fs_source name : string)
    : option nat :=
  if String.eqb name "mv" then Some 0
  else if String.eqb name "p" then Some 1 else None.
Definition sample_compile : string -> string -> GL.G program :=
  compile sample_compile_status sample_shader_log sample_link_status
    sample_program_log sample_active_uniforms sample_uniform_name
    sample_uniform_location.
Definition blank_context : GL.context := GL.Context [] 0.

(** A level field: the grid's rows are the one array [r], and its [n] cells
    hold one and the same number. *)
Definition level_field (n : nat) (r : loc) (st : store) : Prop :=
  grid st = Some (replicate n r)
  /\ exists v, heap st !! r = Some (replicate n v).

(** What a click leaves alone.  [h0] is the heap before the click, [r] and
    [r'] the rows it allocated for [grid] and [grid_normals]: the rows of
    [h0] are as they were, and the row of the normals is still all zeros. *)
Definition click_frame (h0 : gmap loc (list float)) (n : nat) (r r' : loc)
    (st : store) : Prop :=
  grid st = Some (replicate n r)
  /\ grid_normals st = Some (replicate n r')
  /\ r <> r' /\ (r ∉ dom h0) /\ (r' ∉ dom h0)
  /\ heap st !! r' = Some (replicate n 0%float)
  /\ forall l, l ∈ dom h0 -> heap st !! l = h0 !! l.

(** * Properties *)

(** ** Facts of binary64 arithmetic *)

Lemma SFcompare_refl s : s <> S754_nan -> SFcompare s s = Some Eq.
Proof.
  destruct s as [[]|[]| |[] m e]; simpl; try done;
    intros _; rewrite Z.compare_refl, Pos.compare_cont_refl; done.
Qed.

Lemma SF_of_nan y : Prim2SF y = S754_nan -> y = nan.
Proof. intros H. apply Prim2SF_inj. exact H. Qed.

Lemma SF_of_infinity y s :
  Prim2SF y = S754_infinity s -> y = if s then neg_infinity else infinity.
Proof. intros H. apply Prim2SF_inj. rewrite H. by destruct s. Qed.

Lemma is_nan_eq x : is_nan x = true -> x = nan.
Proof.
  unfold is_nan. rewrite FloatAxioms.eqb_spec. unfold SFeqb. intros H.
  apply SF_of_nan.
  destruct (Prim2SF x) eqn:E; try reflexivity;
    rewrite SFcompare_refl in H by done; discriminate.
Qed.

(** [x - x] is [+0], or [NaN] when [x] is not finite. *)
Lemma sub_self x :
  Prim2SF (x - x) = S754_zero false \/ Prim2SF (x - x) = S754_nan.
Proof.
  rewrite FloatAxioms.sub_spec. unfold SF64sub.
  destruct (Prim2SF x) as [[]|[]| |s m e]; simpl; auto.
  rewrite Z.sub_diag. simpl. auto.
Qed.

(** No quotient by [+0] or by [NaN] is finite. *)
Lemma div_zero_or_nan x d :
  Prim2SF d = S754_zero false \/ Prim2SF d = S754_nan ->
  is_finite (x / d) = false.
Proof.
  intros Hd.
  assert (H : Prim2SF (x / d) = S754_nan
              \/ exists s, Prim2SF (x / d) = S754_infinity s).
  { rewrite FloatAxioms.div_spec. unfold SF64div.
    destruct Hd as [-> | ->]; destruct (Prim2SF x); simpl; eauto. }
  destruct H as [H | [s H]].
  - by rewrite (SF_of_nan _ H).
  - rewrite (SF_of_infinity _ _ H). by destruct s.
Qed.

Lemma rescale_same_not_finite m h : is_finite (rescale m m h) = false.
Proof. unfold rescale. apply div_zero_or_nan, sub_self. Qed.

Lemma max_step_same m : max_step m m = m.
Proof. unfold max_step. by repeat destruct (_ : bool). Qed.

Lemma min_step_same m : min_step m m = m.
Proof. unfold min_step. by repeat destruct (_ : bool). Qed.

Lemma above_neg_infinity m :
  is_nan m = false -> (neg_infinity <? m)%float = false -> m = neg_infinity.
Proof.
  intros Hn. rewrite FloatAxioms.ltb_spec.
  change (Prim2SF neg_infinity) with (S754_infinity true).
  unfold SFltb. destruct (Prim2SF m) as [s|[]| |s mm e] eqn:E; simpl; try discriminate.
  - intros _. by apply (SF_of_infinity m true).
  - rewrite (SF_of_nan m E) in Hn. discriminate.
Qed.

Lemma below_infinity m :
  is_nan m = false -> (m <? infinity)%float = false -> m = infinity.
Proof.
  intros Hn. rewrite FloatAxioms.ltb_spec.
  change (Prim2SF infinity) with (S754_infinity false).
  unfold SFltb. destruct (Prim2SF m) as [s|[]| |s mm e] eqn:E; simpl; try discriminate.
  - intros _. by apply (SF_of_infinity m false).
  - rewrite (SF_of_nan m E) in Hn. discriminate.
Qed.

Lemma existsb_replicate {A} (f : A -> bool) n x :
  existsb f (replicate (S n) x) = f x.
Proof. induction n; simpl in *; [apply orb_false_r|]. rewrite IHn. apply orb_diag. Qed.

Lemma fold_same {A} (f : A -> A -> A) n x :
  f x x = x -> fold_left f (replicate n x) x = x.
Proof. intros H. induction n; simpl; [done|]. by rewrite H. Qed.

(** The largest and the smallest of one number repeated are that number. *)
Lemma Math_max_replicate n m : Math_max (replicate (S n) m) = m.
Proof.
  unfold Math_max. rewrite existsb_replicate.
  destruct (is_nan m) eqn:Hn; [symmetry; by apply is_nan_eq|].
  simpl. assert (H : max_step neg_infinity m = m).
  { unfold max_step. change (is_neg_zero neg_infinity) with false.
    rewrite andb_false_r. destruct (neg_infinity <? m)%float eqn:E; [done|].
    symmetry. by apply above_neg_infinity. }
  rewrite H. apply fold_same, max_step_same.
Qed.

Lemma Math_min_replicate n m : Math_min (replicate (S n) m) = m.
Proof.
  unfold Math_min. rewrite existsb_replicate.
  destruct (is_nan m) eqn:Hn; [symmetry; by apply is_nan_eq|].
  simpl. assert (H : min_step infinity m = m).
  { unfold min_step. change (is_pos_zero infinity) with false.
    rewrite andb_false_r. destruct (m <? infinity)%float eqn:E; [done|].
    symmetry. by apply below_infinity. }
  rewrite H. apply fold_same, min_step_same.
Qed.

(** ** [createTerrain] *)

Lemma index_triples_snoc i k :
  index_triples i (S k) =
  (let a := Z.of_nat i in [a * 3; a * 3 + 1; a * 3 + 2]%Z) ++ index_triples (S i) k.
Proof. reflexivity. Qed.

Lemma length_index_triples i k : length (index_triples i k) = 3 * k.
Proof.
  revert i; induction k as [|k IH]; intros i; [reflexivity|].
  rewrite index_triples_snoc, length_app, IH. simpl. lia.
Qed.

Lemma length_position_triples n i k : length (position_triples n i k) = 3 * k.
Proof.
  unfold position_triples. revert i; induction k as [|k IH]; intros i; [reflexivity|].
  simpl. rewrite IH. lia.
Qed.

Lemma store_eq st st' :
  heap st = heap st' -> grid st = grid st' -> grid_normals st = grid_normals st' ->
  var_n st = var_n st' -> var_s st = var_s st' -> var_e st = var_e st' ->
  var_w st = var_w st' -> draws st = draws st' ->
  terrain st = terrain st' -> g st = g st' -> st = st'.
Proof. destruct st, st'; simpl; intros; congruence. Qed.

(** With [g] bound the loop runs to its end: the index triples land in
    [terrain], the position and colour triples in [g]. *)
Lemma terrain_loop_bound n k : forall i st t gg,
  terrain st = Some t -> g st = Some gg ->
  for_loop k i (terrain_step n) st =
  Ok tt (with_g (Geometry (triangles gg)
                          (attr_position gg ++ position_triples n i k)
                          (attr_color gg ++ color_triples k))
        (with_terrain (Geometry (triangles t ++ index_triples i k)
                                (attr_position t) (attr_color t)) st)).
Proof.
  induction k as [|k IH]; intros i st t gg Ht Hg.
  - simpl. unfold ret. f_equal. apply store_eq; simpl; try done.
    + rewrite Ht, app_nil_r. by destruct t.
    + rewrite Hg, !app_nil_r. by destruct gg.
  - simpl. unfold bind at 1. unfold terrain_step at 1.
    unfold bind, terrain_push_triangle, g_push_position, g_push_color.
    rewrite Ht. simpl. rewrite Hg. simpl.
    erewrite IH by reflexivity.
    f_equal. apply store_eq; simpl; try done.
    + rewrite index_triples_snoc. simpl. by rewrite <- app_assoc.
    + unfold position_triples, color_triples. simpl. by rewrite <- !app_assoc.
Qed.

(** With [g] unbound the first turn throws, after its first push. *)
Lemma terrain_loop_unbound n k i st t :
  terrain st = Some t -> g st = None ->
  for_loop (S k) i (terrain_step n) st =
  Throw ReferenceError
    (with_terrain (Geometry (triangles t ++ index_triples i 1)
                            (attr_position t) (attr_color t)) st).
Proof.
  intros Ht Hg. simpl. unfold bind at 1. unfold terrain_step at 1.
  unfold bind, terrain_push_triangle, g_push_position.
  rewrite Ht. simpl. rewrite Hg. reflexivity.
Qed.

Lemma createTerrain_bound n f st gg :
  g st = Some gg ->
  let k := Z.to_nat (triangle_count n) in
  let t := Geometry (index_triples 0 k) [] [] in
  createTerrain n f st =
  Ok t (with_g (Geometry (triangles gg)
                         (attr_position gg ++ position_triples n 0 k)
                         (attr_color gg ++ color_triples k))
       (with_terrain t st)).
Proof.
  intros Hg k t. unfold createTerrain, bind, modify.
  erewrite terrain_loop_bound by (simpl; eauto). reflexivity.
Qed.

Lemma createTerrain_unbound n f st :
  g st = None -> (0 < triangle_count n)%Z ->
  createTerrain n f st =
  Throw ReferenceError (with_terrain (Geometry [0; 1; 2]%Z [] []) st).
Proof.
  intros Hg Hk. unfold createTerrain, bind, modify.
  destruct (Z.to_nat (triangle_count n)) as [|k] eqn:E; [lia|].
  erewrite terrain_loop_unbound by (simpl; eauto). reflexivity.
Qed.

Lemma createTerrain_no_turn n f st :
  (triangle_count n <= 0)%Z ->
  createTerrain n f st = Ok empty_geometry (with_terrain empty_geometry st).
Proof.
  intros Hk. unfold createTerrain, bind, modify.
  replace (Z.to_nat (triangle_count n)) with 0 by lia. reflexivity.
Qed.

(** The returned mesh never has a position: for every grid size of two or
    more and a bound [g], [createTerrain] returns the index triples alone. *)
Theorem createTerrain_returns_no_position n f st gg :
  (2 <= n)%Z -> g st = Some gg ->
  exists t st', createTerrain n f st = Ok t st'
    /\ length (triangles t) = 3 * Z.to_nat (triangle_count n)
    /\ attr_position t = []
    /\ (Z.of_nat (length (attr_position t)) <> n * n)%Z.
Proof.
  intros Hn Hg. rewrite (createTerrain_bound _ _ _ _ Hg). do 2 eexists.
  split; [reflexivity|]. simpl. rewrite length_index_triples.
  repeat split; try done. nia.
Qed.

(** The last index pushed is at least [gridsize * gridsize]. *)
Lemma index_triples_last k :
  0 < k -> (Z.of_nat (3 * k) - 1)%Z ∈ index_triples 0 k.
Proof.
  intros Hk. unfold index_triples.
  apply list_elem_of_In, in_flat_map. exists (k - 1). split.
  - apply in_seq. lia.
  - simpl. right; right; left. lia.
Qed.

Theorem createTerrain_index_out_of_range n f st gg :
  (2 <= n)%Z -> g st = Some gg ->
  exists t st' ix, createTerrain n f st = Ok t st'
    /\ ix ∈ triangles t /\ (n * n <= ix)%Z.
Proof.
  intros Hn Hg. rewrite (createTerrain_bound _ _ _ _ Hg).
  eexists _, _, _. split; [reflexivity|]. split.
  - simpl. apply index_triples_last. unfold triangle_count. nia.
  - unfold triangle_count. nia.
Qed.

(** C4 (as the code has it). At [createTerrain(2, 0)] the mesh does not have
    the four positions of a 2 by 2 grid: on the page as loaded the call
    throws a [ReferenceError] on [g] after its first push; with [g] bound it
    returns two index triples and an empty position array, the two position
    triples having gone to [g]. *)
Theorem createTerrain_2_has_no_four_positions :
  createTerrain 2 0 page_load =
    Throw ReferenceError (with_terrain (Geometry [0; 1; 2]%Z [] []) page_load)
  /\ exists st',
       createTerrain 2 0 (with_g empty_geometry page_load) =
         Ok (Geometry [0; 1; 2; 3; 4; 5]%Z [] []) st'
       /\ option_map attr_position (g st') = Some [0; 1; 2; 1; 2; 3]%Z
       /\ length (attr_position (Geometry [0; 1; 2; 3; 4; 5]%Z [] [])) <> 2 * 2.
Proof.
  split; [reflexivity|]. eexists. split; [reflexivity|]. split; [reflexivity|].
  simpl. lia.
Qed.

(** C5 (as the code has it). At [createTerrain(2, 0)] with [g] bound the
    index list is 0..5: the entries 4 and 5 are not below 2 * 2, and the
    returned position array is empty, so no entry indexes it.  On the page
    as loaded the call throws before it returns any list. *)
Theorem createTerrain_2_index_not_below_4 :
  (exists t st',
     createTerrain 2 0 (with_g empty_geometry page_load) = Ok t st'
     /\ triangles t = [0; 1; 2; 3; 4; 5]%Z
     /\ 5%Z ∈ triangles t /\ (2 * 2 <= 5)%Z
     /\ Forall (fun ix => (Z.of_nat (length (attr_position t)) <= ix)%Z) (triangles t))
  /\ exists st', createTerrain 2 0 page_load = Throw ReferenceError st'.
Proof.
  split; [|eexists; reflexivity].
  eexists _, _. split; [reflexivity|]. simpl. split; [reflexivity|].
  split; [set_solver|]. split; [lia|]. repeat constructor; lia.
Qed.

(** C10. Two runs of [createTerrain] with the same grid size end the same
    way and leave the same mesh data, whatever the fault counts, the heights
    and the normals in their stores: the run reads no elevation.  With [g]
    bound, the returned mesh is the index triples, and [g] receives the
    triples [(i, i+1, i+gridsize)] and the colour (0.8, 0.6, 0.4) once per
    turn. *)
Theorem createTerrain_reads_no_heights n f1 f2 st1 st2 :
  g st1 = g st2 ->
  mesh_view (createTerrain n f1 st1) = mesh_view (createTerrain n f2 st2)
  /\ forall gg, g st1 = Some gg ->
       let k := Z.to_nat (triangle_count n) in
       mesh_view (createTerrain n f1 st1) =
         (Some (inr (Geometry (index_triples 0 k) [] [])),
          Some (Geometry (index_triples 0 k) [] []),
          Some (Geometry (triangles gg)
                         (attr_position gg ++ position_triples n 0 k)
                         (attr_color gg ++ color_triples k))).
Proof.
  intros Hg. split.
  - destruct (g st1) as [gg|] eqn:E1.
    + rewrite (createTerrain_bound _ _ st1 gg E1).
      rewrite (createTerrain_bound _ _ st2 gg (eq_sym Hg)). reflexivity.
    + destruct (Z_lt_le_dec 0 (triangle_count n)) as [Hk|Hk].
      * rewrite (createTerrain_unbound _ _ st1 E1 Hk).
        rewrite (createTerrain_unbound _ _ st2 (eq_sym Hg) Hk).
        simpl. by rewrite E1, <- Hg.
      * rewrite !createTerrain_no_turn by done. simpl. by rewrite E1, <- Hg.
  - intros gg E1 k. rewrite (createTerrain_bound _ _ st1 gg E1). reflexivity.
Qed.

Lemma createTerrain_reads_no_heights_witness :
  let st1 := with_g empty_geometry page_load in
  let st2 := with_g empty_geometry
               (with_grid [1%positive; 1%positive]
                  (with_heap {[ 1%positive := [nan; nan] ]} page_load)) in
  g st1 = g st2
  /\ mesh_view (createTerrain 3 0 st1) = mesh_view (createTerrain 3 7 st2).
Proof.
  intros st1 st2. split; [reflexivity|].
  apply (createTerrain_reads_no_heights 3 0%float 7%float st1 st2). reflexivity.
Defined.

(** C7 (as the code has it). A grid size of one raises no error of its own:
    the input handling keeps it, the block that allocates the grids builds a
    single row of one cell for each, and [createTerrain(1, faults)] returns
    the empty mesh. *)
Theorem gridsize_one_is_not_rejected f st :
  or_default 1 2 = 1%float
  /\ (exists st' r r', allocate 1 st = Ok tt st'
        /\ grid st' = Some [r] /\ grid_normals st' = Some [r']
        /\ row_of st' r = [0%float])
  /\ createTerrain 1 f st = Ok empty_geometry (with_terrain empty_geometry st).
Proof.
  split; [reflexivity|]. split.
  - eexists _, _, _. split; [reflexivity|]. split; [reflexivity|].
    split; [reflexivity|]. unfold row_of. simpl.
    rewrite lookup_insert_ne, lookup_insert_eq; [done|].
    pose proof (is_fresh (dom (<[fresh (dom (heap st)) := [0%float]]> (heap st)))) as Hf.
    intros E. apply Hf. rewrite <- E at 1. set_solver.
  - apply createTerrain_no_turn. unfold triangle_count. lia.
Qed.

(** C7, counterexample: [createTerrain(1, 5)] does not fail, it returns a
    mesh; and the handler, given a grid size of 1, keeps it and runs its
    first three blocks to their end on a grid of one cell. *)
Lemma createTerrain_1_5_returns :
  createTerrain 1 5 page_load = Ok empty_geometry (with_terrain empty_geometry page_load)
  /\ (~ exists e st', createTerrain 1 5 page_load = Throw e st')
  /\ exists st' r,
       blocks
           sample_draws cos_at_zero vec_sub vec_dot sample_limit (or_default 1 2) (or_default 0 0) 3
         page_load = Ok tt st'
       /\ grid st' = Some [r].
Proof.
  split; [reflexivity|]. split.
  - intros (e & st' & H). discriminate H.
  - eexists _, _. split; [vm_compute; reflexivity | reflexivity].
Qed.

(** As the page loads it, [g] is unassigned, and [createTerrain] throws for
    every grid size of two or more. *)
Theorem createTerrain_throws_as_loaded n f st :
  (2 <= n)%Z -> g st = None ->
  createTerrain n f st =
  Throw ReferenceError (with_terrain (Geometry [0; 1; 2]%Z [] []) st).
Proof.
  intros Hn Hg. apply createTerrain_unbound; [done|]. unfold triangle_count. nia.
Qed.

Lemma createTerrain_throws_as_loaded_witness :
  (2 <= 4)%Z /\ g page_load = None
  /\ createTerrain 4 3 page_load =
     Throw ReferenceError (with_terrain (Geometry [0; 1; 2]%Z [] []) page_load).
Proof.
  split; [lia|]. split; [reflexivity|].
  apply (createTerrain_throws_as_loaded 4 3%float page_load); [lia | reflexivity].
Defined.

Lemma createTerrain_returns_no_position_witness :
  (2 <= 3)%Z /\ g (with_g empty_geometry page_load) = Some empty_geometry
  /\ exists t st', createTerrain 3 1 (with_g empty_geometry page_load) = Ok t st'
       /\ length (triangles t) = 3 * Z.to_nat (triangle_count 3)
       /\ attr_position t = []
       /\ (Z.of_nat (length (attr_position t)) <> 3 * 3)%Z.
Proof.
  split; [lia|]. split; [reflexivity|].
  apply (createTerrain_returns_no_position 3 1%float
           (with_g empty_geometry page_load) empty_geometry); [lia | reflexivity].
Defined.

Lemma createTerrain_index_out_of_range_witness :
  (2 <= 3)%Z /\ g (with_g empty_geometry page_load) = Some empty_geometry
  /\ exists t st' ix, createTerrain 3 1 (with_g empty_geometry page_load) = Ok t st'
       /\ ix ∈ triangles t /\ (3 * 3 <= ix)%Z.
Proof.
  split; [lia|]. split; [reflexivity|].
  apply (createTerrain_index_out_of_range 3 1%float
           (with_g empty_geometry page_load) empty_geometry); [lia | reflexivity].
Defined.

(** ** Loops of the handler *)

(** A size that passes [new Array] is the trip count of a loop bounded by it. *)
Lemma array_length_trip_count x n :
  array_length x = Some n -> trip_count x = Some n.
Proof.
  unfold array_length, trip_count, integral, trunc.
  destruct (Prim2SF x) as [s|s| |s m e]; try discriminate.
  - simpl. intros [= <-]. reflexivity.
  - destruct (0 <=? e)%Z eqn:He; simpl.
    + assert (0 < Z.pos m * 2 ^ e)%Z by (apply Z.leb_le in He; nia).
      destruct s.
      * destruct (0 <=? - (Z.pos m * 2 ^ e))%Z eqn:E; [lia | discriminate].
      * destruct (0 <=? Z.pos m * 2 ^ e)%Z; try discriminate. simpl.
        destruct (Z.pos m * 2 ^ e <? 2 ^ 32)%Z eqn:E; try discriminate.
        intros [= <-]. apply Z.ltb_lt in E.
        replace (Z.pos m * 2 ^ e <=? 2 ^ 53)%Z with true; [done|].
        symmetry. apply Z.leb_le. lia.
    + apply Z.leb_gt in He.
      destruct (Z.pos m mod 2 ^ (- e) =? 0)%Z eqn:Hd; try discriminate.
      apply Z.eqb_eq in Hd.
      assert (Hp : (0 < 2 ^ (- e))%Z) by (apply Z.pow_pos_nonneg; lia).
      pose proof (Z.div_mod (Z.pos m) (2 ^ (- e)) ltac:(lia)) as Hq.
      rewrite Hd, Z.add_0_r in Hq.
      assert (0 < Z.pos m / 2 ^ (- e))%Z by nia.
      destruct s.
      * destruct (0 <=? - (Z.pos m / 2 ^ (- e)))%Z eqn:E; [lia | discriminate].
      * destruct (0 <=? Z.pos m / 2 ^ (- e))%Z; try discriminate. simpl.
        destruct (Z.pos m / 2 ^ (- e) <? 2 ^ 32)%Z eqn:E; try discriminate.
        intros [= <-]. apply Z.ltb_lt in E.
        assert (Hc : ((Z.pos m + 2 ^ (- e) - 1) / 2 ^ (- e) = Z.pos m / 2 ^ (- e))%Z).
        { rewrite Hq at 1.
          replace (2 ^ (- e) * (Z.pos m / 2 ^ (- e)) + 2 ^ (- e) - 1)%Z
            with ((2 ^ (- e) - 1) + (Z.pos m / 2 ^ (- e)) * 2 ^ (- e))%Z by lia.
          rewrite Z.div_add by lia. rewrite Z.div_small by lia. lia. }
        rewrite Hc.
        replace (Z.pos m / 2 ^ (- e) <=? 2 ^ 53)%Z with true; [done|].
        symmetry. apply Z.leb_le. lia.
Qed.

Lemma js_store_lookup j x row : js_store j x row !! j = Some x.
Proof.
  unfold js_store. destruct (j <? length row) eqn:E.
  - apply Nat.ltb_lt in E. by apply list_lookup_insert_eq.
  - apply Nat.ltb_ge in E. rewrite lookup_app_r by done.
    rewrite lookup_app_r by (rewrite length_replicate; lia).
    rewrite length_replicate. by replace (j - length row - (j - length row)) with 0 by lia.
Qed.

(** A sweep over a whole row applies [f] to every cell. *)
Lemma sweep_app f (done_ todo : list float) :
  sweep f (length todo) (length done_) (done_ ++ todo) = done_ ++ map f todo.
Proof.
  revert done_; induction todo as [|x todo IH]; intros done_; simpl.
  - reflexivity.
  - rewrite list_lookup_middle by done. simpl.
    unfold js_store. rewrite length_app. simpl.
    replace (length done_ <? length done_ + S (length todo)) with true
      by (symmetry; apply Nat.ltb_lt; lia).
    rewrite insert_app_r_alt by done.
    replace (length done_ - length done_) with 0 by lia. simpl.
    replace (S (length done_)) with (length (done_ ++ [f x]))
      by (rewrite length_app; simpl; lia).
    rewrite (cons_middle (f x) done_ todo), app_assoc, IH.
    by rewrite <- app_assoc.
Qed.

Lemma sweep_row f (row : list float) : sweep f (length row) 0 row = map f row.
Proof. apply (sweep_app f [] row). Qed.

Lemma with_heap_id st : with_heap (heap st) st = st.
Proof. by destruct st. Qed.

(** The inner loop over [j] for a fixed [i] sweeps the row [grid[i]]. *)
Lemma row_loop f i r rows k : forall j st row,
  grid st = Some rows -> rows !! i = Some r -> heap st !! r = Some row ->
  for_loop k j (fun j => grid_adjust i j f) st =
  Ok tt (with_heap (<[r := sweep f k j row]> (heap st)) st).
Proof.
  induction k as [|k IH]; intros j st row Hg Hr Hh; simpl.
  - unfold ret. f_equal. rewrite insert_id by done. by rewrite with_heap_id.
  - unfold bind at 1. unfold grid_adjust at 1.
    unfold bind, outer_row, row_get, row_set, modify, row_of.
    rewrite Hg, Hr, Hh. simpl.
    erewrite IH; [| simpl; eauto | eauto | simpl; apply lookup_insert_eq].
    f_equal. apply store_eq; simpl; try done.
    by rewrite insert_insert_eq.
Qed.

(** With every row the same array, [k] turns of the outer loop sweep that
    one array [k] times. *)
Lemma grid_loop f n r k : forall i st row,
  grid st = Some (replicate n r) -> heap st !! r = Some row -> length row = n ->
  i + k <= n ->
  for_loop k i (fun i => for_loop n 0 (fun j => grid_adjust i j f)) st =
  Ok tt (with_heap (<[r := Nat.iter k (map f) row]> (heap st)) st).
Proof.
  induction k as [|k IH]; intros i st row Hg Hh Hl Hk; simpl.
  - unfold ret. f_equal. rewrite insert_id by done. by rewrite with_heap_id.
  - unfold bind.
    assert (Hr : replicate n r !! i = Some r) by (apply lookup_replicate_2; lia).
    rewrite (row_loop f i r (replicate n r) n 0 st row Hg Hr Hh).
    erewrite IH; [| simpl; eauto | simpl; apply lookup_insert_eq | | lia].
    + f_equal. apply store_eq; simpl; try done.
      rewrite insert_insert_eq. f_equal.
      rewrite <- Hl at 1. rewrite sweep_row.
      clear. induction k; simpl; [done|]. by rewrite IHk.
    + rewrite <- Hl at 1. rewrite sweep_row. by rewrite length_map.
Qed.

Lemma for_lt_count bound n body :
  trip_count bound = Some n -> for_lt bound body = for_loop n 0 body.
Proof. unfold for_lt. by intros ->. Qed.

(** ** Allocation *)

Lemma allocate_ok gridsize n st :
  array_length gridsize = Some n ->
  let r := fresh (dom (heap st)) in
  let h := <[r := replicate n 0%float]> (heap st) in
  let r' := fresh (dom h) in
  allocate gridsize st =
  Ok tt (with_grid_normals (replicate n r')
          (with_heap (<[r' := replicate n 0%float]> h)
             (with_grid (replicate n r) (with_heap h st)))).
Proof.
  intros Hn r h r'. unfold allocate, new_grid. rewrite Hn. reflexivity.
Qed.

Lemma allocate_fails gridsize st :
  array_length gridsize = None -> allocate gridsize st = Throw RangeError st.
Proof. intros Hn. unfold allocate, new_grid. rewrite Hn. reflexivity. Qed.

Lemma fresh_row_distinct (h : gmap loc (list float)) row :
  fresh (dom (<[fresh (dom h) := row]> h)) <> fresh (dom h).
Proof.
  intros E.
  apply (is_fresh (dom (<[fresh (dom h) := row]> h))).
  rewrite E at 1. set_solver.
Qed.

(** ** Input handling *)

(** C8 (as the code has it). Only [NaN] and zero are replaced, the grid
    size by 2 and the fault count by 0; any other number runs the four
    blocks as entered.  A grid size that is kept and is no array length
    (negative, fractional, too large) ends the handler in a [RangeError]
    before anything is stored. *)
Theorem only_nan_and_zero_fall_back random_source Math_cos sub dot argument_limit v f :
  on_submit random_source Math_cos sub dot argument_limit v f =
    blocks random_source Math_cos sub dot argument_limit
      (if is_nan v || is_zero v then 2%float else v)
      (if is_nan f || is_zero f then 0%float else f) 4
  /\ forall st, falsy v = false -> array_length v = None ->
       on_submit random_source Math_cos sub dot argument_limit v f st = Throw RangeError st.
Proof.
  split; [reflexivity|].
  intros st Hv Hlen. unfold on_submit, or_default. rewrite Hv.
  simpl. unfold bind. by rewrite allocate_fails.
Qed.

Lemma only_nan_and_zero_fall_back_witness :
  falsy (-1)%float = false /\ array_length (-1)%float = None
  /\ on_submit sample_draws cos_at_zero vec_sub vec_dot sample_limit (-1) 5 page_load
       = Throw RangeError page_load.
Proof.
  split; [reflexivity|]. split; [reflexivity|].
  apply (proj2 (only_nan_and_zero_fall_back
                  sample_draws cos_at_zero vec_sub vec_dot sample_limit (-1)%float 5%float));
    reflexivity.
Defined.

(** C8, counterexample: the out-of-range sizes 1 and -1 are not replaced by
    2, and with -1 the handler fails. *)
Lemma out_of_range_size_is_kept :
  or_default 1 2 = 1%float
  /\ or_default (-1) 2 = (-1)%float
  /\ on_submit sample_draws cos_at_zero vec_sub vec_dot sample_limit (-1) 0 page_load
       = Throw RangeError page_load
  /\ on_submit sample_draws cos_at_zero vec_sub vec_dot sample_limit (-1) 0 page_load
       <> on_submit sample_draws cos_at_zero vec_sub vec_dot sample_limit 2 0 page_load.
Proof.
  split; [reflexivity|]. split; [reflexivity|]. split; [reflexivity|].
  vm_compute. discriminate.
Qed.

(** ** The fault loop *)

(** Within one fault every vertex takes the same branch: the value tested
    is computed from [x], [p] and [normal], never from [i] and [j]. *)
Theorem fault_vertex_uniform sub dot x p normal :
  (exists e, forall i j st,
      fault_vertex sub dot x p normal i j st = Throw e st)
  \/ (forall i j st, fault_vertex sub dot x p normal i j st = Ok tt st)
  \/ (exists f, forall i j,
        fault_vertex sub dot x p normal i j = grid_adjust i j f).
Proof.
  unfold fault_vertex, new_typed_array, bind.
  destruct (to_index x) as [len|]; [| left; by exists RangeError].
  unfold ret. destruct (sub _ p) as [e|d]; [left; by exists e|]. simpl.
  destruct (dot d normal) as [e|v]; [left; by exists e|]. simpl.
  destruct (v <? 0)%float; [right; right; by eexists|].
  destruct (0 <? v)%float; [right; right; by eexists|].
  right; left. reflexivity.
Qed.

(** C2 (as the code has it). One fault on the 3 by 3 grid, through
    (1.5, 1.5) with normal (1, 0): the spec's signed distance is negative at
    vertex (0, 0) and positive at vertex (2, 0), so the first should go down
    by 0.01 and the second up.  The loop builds [vertex] from [x] and [y]
    with a typed-array constructor, gets the same value 0 at every vertex,
    and leaves all nine elevations at 0. *)
Theorem fault_loop_ignores_the_vertex :
  exists st',
    blocks sample_draws cos_at_zero vec_sub vec_dot sample_limit 3 1 2 page_load = Ok tt st'
    /\ (forall i j, i < 3 -> j < 3 -> cell grid st' i j = Some 0%float)
    /\ (spec_signed_distance 0 0 1.5 1.5 1 0 <? 0)%float = true
    /\ (0 <? spec_signed_distance 2 0 1.5 1.5 1 0)%float = true.
Proof.
  eexists. split; [vm_compute; reflexivity|]. split.
  - intros [|[|[|i]]] [|[|[|j]]] Hi Hj; try lia; reflexivity.
  - split; reflexivity.
Qed.

(** ** Shared rows *)

Lemma keeps_ret P {A} (a : A) : keeps P (ret a).
Proof. intros st H. exact H. Qed.

Lemma keeps_throw P {A} e : keeps P (@throw A e).
Proof. intros st H. exact H. Qed.

Lemma keeps_bind P {A B} (m : M A) (k : A -> M B) :
  keeps P m -> (forall a, keeps P (k a)) -> keeps P (bind m k).
Proof.
  intros Hm Hk st H. unfold bind. specialize (Hm st H).
  destruct (m st) as [a st'|e st'|]; [by apply Hk | done | done].
Qed.

Lemma keeps_modify P f : (forall st, P st -> P (f st)) -> keeps P (modify f).
Proof. intros Hf st H. by apply Hf. Qed.

Lemma keeps_for_loop P body k :
  (forall i, keeps P (body i)) -> forall i, keeps P (for_loop k i body).
Proof.
  intros Hb. induction k as [|k IH]; intros i; simpl.
  - apply keeps_ret.
  - apply keeps_bind; [apply Hb | intros _; apply IH].
Qed.

Lemma keeps_for_lt P bound body :
  (forall i, keeps P (body i)) -> keeps P (for_lt bound body).
Proof.
  intros Hb. unfold for_lt. destruct (trip_count bound).
  - by apply keeps_for_loop.
  - intros st H. exact I.
Qed.

Lemma keeps_call P {A} (r : exn + A) : keeps P (call r).
Proof. destruct r; [apply keeps_throw | apply keeps_ret]. Qed.

Lemma keeps_apply_to P argument_limit f args :
  keeps P (apply_to argument_limit f args).
Proof.
  unfold apply_to. destruct (accepts _ _); [apply keeps_ret | apply keeps_throw].
Qed.

Lemma keeps_grid_map P argument_limit f : keeps P (grid_map argument_limit f).
Proof.
  intros st H. unfold grid_map. destruct (grid st); [|done].
  by destruct (forallb _ _).
Qed.

Lemma keeps_outer_row P a i : keeps P (outer_row a i).
Proof.
  intros st H. unfold outer_row. destruct (a st) as [rows|]; [|done].
  by destruct (rows !! i).
Qed.

Lemma keeps_new_typed_array P k len : keeps P (new_typed_array k len).
Proof.
  unfold new_typed_array. destruct (to_index len); [apply keeps_ret | apply keeps_throw].
Qed.

Section Points.

Variable gridsize : float.
#[local] Abbreviation P := (pipeline_point gridsize).

Lemma keeps_row_set r j x : keeps P (row_set r j x).
Proof. apply keeps_modify. intros st H. by apply pp_row_set. Qed.

Lemma keeps_grid_adjust i j f : keeps P (grid_adjust i j f).
Proof.
  unfold grid_adjust.
  apply keeps_bind; [apply keeps_outer_row | intros r].
  apply keeps_bind; [by intros st H | intros v]. apply keeps_row_set.
Qed.

Lemma keeps_apply_faults random_source Math_cos sub dot gs faults :
  keeps P (apply_faults random_source Math_cos sub dot gs faults).
Proof.
  unfold apply_faults. apply keeps_for_lt. intros _. unfold apply_fault.
  assert (Hrand : keeps P (Math_random random_source))
    by (intros st H; by apply pp_draw).
  apply keeps_bind; [done | intros r1].
  apply keeps_bind; [done | intros r2].
  apply keeps_bind; [apply keeps_new_typed_array | intros p].
  apply keeps_bind; [done | intros r3].
  apply keeps_bind; [apply keeps_new_typed_array | intros normal].
  apply keeps_for_lt. intros i. apply keeps_for_lt. intros j.
  unfold fault_vertex.
  apply keeps_bind; [apply keeps_new_typed_array | intros vertex].
  apply keeps_bind; [apply keeps_call | intros d].
  apply keeps_bind; [apply keeps_call | intros v].
  destruct (v <? 0)%float; [apply keeps_grid_adjust|].
  destruct (0 <? v)%float; [apply keeps_grid_adjust | apply keeps_ret].
Qed.

Lemma keeps_normalize_heights argument_limit gs :
  keeps P (normalize_heights argument_limit gs).
Proof.
  unfold normalize_heights.
  apply keeps_bind; [apply keeps_grid_map | intros maxRow].
  apply keeps_bind; [apply keeps_apply_to | intros max].
  apply keeps_bind; [apply keeps_grid_map | intros minRow].
  apply keeps_bind; [apply keeps_apply_to | intros min].
  apply keeps_for_lt. intros i. apply keeps_for_lt. intros j.
  apply keeps_grid_adjust.
Qed.

Lemma keeps_compute_normals gs : keeps P (compute_normals gs).
Proof.
  unfold compute_normals. apply keeps_for_lt. intros i. apply keeps_for_lt. intros j.
  assert (Hat : forall a b, keeps P (gridsize_at gs a b)).
  { intros a b. unfold gridsize_at, value_get, number_get. apply keeps_throw. }
  assert (Hn : forall v, keeps P (set_n v))
    by (intros v; apply keeps_modify; intros st H; by apply pp_n).
  assert (Hs : forall v, keeps P (set_s v))
    by (intros v; apply keeps_modify; intros st H; by apply pp_s).
  assert (He : forall v, keeps P (set_e v))
    by (intros v; apply keeps_modify; intros st H; by apply pp_e).
  assert (Hw : forall v, keeps P (set_w v))
    by (intros v; apply keeps_modify; intros st H; by apply pp_w).
  unfold normal_vertex.
  repeat (apply keeps_bind; [done | intros _]).
  apply keeps_bind.
  { destruct (i =? 0); [|destruct (of_nat i =? gs - 1)%float];
      (apply keeps_bind; [apply keeps_bind; [done | done] | intros _]);
      (apply keeps_bind; [done | done]). }
  intros _. apply keeps_bind.
  { destruct (j =? 0); [|destruct (of_nat j =? gs - 1)%float];
      (apply keeps_bind; [apply keeps_bind; [done | done] | intros _]);
      (apply keeps_bind; [done | done]). }
  intros _. apply keeps_bind; [apply keeps_outer_row | intros r].
  intros st H. apply (keeps_row_set r j _ st H).
Qed.

(** Every block after the allocation ends in a point of the pipeline. *)
Lemma blocks_end_in_points random_source Math_cos sub dot argument_limit faults st0 st1 k st :
  allocate gridsize st0 = Ok tt st1 -> 1 <= k ->
  final (blocks
      random_source Math_cos sub dot argument_limit gridsize faults k st0) = Some st ->
  P st.
Proof.
  intros Ha Hk.
  assert (H1 : P st1) by (eapply pp_allocated; eauto).
  pose proof (keeps_apply_faults random_source Math_cos sub dot gridsize faults st1 H1) as H2.
  destruct k as [|[|[|[|k]]]]; [lia| | | |]; simpl; unfold bind; rewrite Ha.
  - by intros [= <-].
  - destruct (apply_faults _ _ _ _ _ _ st1) as [[] st2|e st2|]; simpl; [| |done];
      by intros [= <-].
  - destruct (apply_faults _ _ _ _ _ _ st1) as [[] st2|e st2|]; simpl;
      [|by intros [= <-] | done].
    pose proof (keeps_normalize_heights argument_limit gridsize st2 H2) as H3.
    destruct (normalize_heights argument_limit gridsize st2) as [[] st3|e st3|]; simpl; [| |done];
      by intros [= <-].
  - destruct (apply_faults _ _ _ _ _ _ st1) as [[] st2|e st2|]; simpl;
      [|by intros [= <-] | done].
    pose proof (keeps_normalize_heights argument_limit gridsize st2 H2) as H3.
    destruct (normalize_heights argument_limit gridsize st2) as [[] st3|e st3|]; simpl;
      [|by intros [= <-] | done].
    pose proof (keeps_compute_normals gridsize st3 H3) as H4.
    destruct (compute_normals gridsize st3) as [[] st4|e st4|]; simpl; [| |done];
      by intros [= <-].
Qed.

Lemma length_js_store j x row : length row <= length (js_store j x row).
Proof.
  unfold js_store. destruct (j <? length row).
  - by rewrite length_insert.
  - rewrite length_app. lia.
Qed.

(** At a point of the pipeline both outer arrays hold one reference,
    repeated, and the row behind it has a cell for every column. *)
Lemma point_shape st :
  P st ->
  exists n r r', array_length gridsize = Some n
    /\ grid st = Some (replicate n r) /\ grid_normals st = Some (replicate n r')
    /\ n <= length (row_of st r) /\ n <= length (row_of st r').
Proof.
  induction 1 as [st st' Ha|st r0 j x _ IH| | | | | ]; try exact IHpipeline_point.
  - destruct (array_length gridsize) as [n|] eqn:Hn.
    + rewrite (allocate_ok _ _ _ Hn) in Ha. injection Ha as <-.
      eexists n, _, _. split; [done|]. split; [reflexivity|]. split; [reflexivity|].
      unfold row_of. simpl.
      rewrite lookup_insert_ne by apply fresh_row_distinct.
      rewrite !lookup_insert_eq. simpl. by rewrite length_replicate.
    + by rewrite (allocate_fails _ _ Hn) in Ha.
  - destruct IH as (n & r & r' & Hn & Hg & Hgn & Hl & Hl').
    exists n, r, r'. split; [done|]. split; [done|]. split; [done|].
    assert (Hrow : forall q, n <= length (row_of st q) ->
      n <= length (row_of (with_heap (<[r0 := js_store j x (row_of st r0)]> (heap st)) st) q)).
    { intros q Hq. unfold row_of at 1. simpl.
      destruct (decide (r0 = q)) as [->|Hne].
      - rewrite lookup_insert_eq. simpl.
        pose proof (length_js_store j x (row_of st q)). lia.
      - by rewrite lookup_insert_ne. }
    split; by apply Hrow.
Qed.

End Points.

(** C9. Once the handler has allocated its two grids, each of its blocks
    ends in a point of the pipeline: a store reached from the allocation by
    cell assignments and by updates of the scratch globals and of the random
    source, the only effects the handler has.  At every such point each
    outer array is filled with one and the same row reference: for [grid]
    and for [grid_normals] alike, [a[i][j]] and [a[i'][j]] read the same
    cell, which holds a number for every column of the grid, and after
    [a[i][j] = x] every row shows [x] in column [j]. *)
Theorem rows_share_one_array
    random_source Math_cos sub dot argument_limit gridsize_field faults_field st0 st1 :
  let gridsize := or_default gridsize_field 2 in
  let faults := or_default faults_field 0 in
  allocate gridsize st0 = Ok tt st1 ->
  (forall k st, 1 <= k ->
     final (blocks
         random_source Math_cos sub dot argument_limit gridsize faults k st0) = Some st ->
     pipeline_point gridsize st)
  /\ forall st, pipeline_point gridsize st ->
       forall a, a = grid \/ a = grid_normals ->
       exists n r, array_length gridsize = Some n /\ a st = Some (replicate n r)
         /\ forall i i' j, i < n -> i' < n ->
              cell a st i j = cell a st i' j
              /\ (j < n -> is_Some (cell a st i j))
              /\ forall x, exists st',
                   write a i j x st = Some st'
                   /\ cell a st' i' j = Some x
                   /\ pipeline_point gridsize st'.
Proof.
  intros gridsize faults Ha. split.
  - intros k st Hk Hf. eapply blocks_end_in_points; eauto.
  - intros st Hp a Hsel.
    destruct (point_shape gridsize st Hp) as (n & r & r' & Hn & Hg & Hgn & Hl & Hl').
    assert (Hshape : exists r0, a st = Some (replicate n r0)
                       /\ n <= length (row_of st r0)
                       /\ forall h, a (with_heap h st) = Some (replicate n r0)).
    { destruct Hsel as [-> | ->]; [exists r | exists r']; repeat split; done. }
    destruct Hshape as (r0 & Ha0 & Hlen & Hkeep).
    exists n, r0. split; [done|]. split; [done|].
    intros i i' j Hi Hi'. split; [|split].
    + unfold cell. rewrite Ha0. by rewrite !lookup_replicate_2.
    + intros Hj. unfold cell. rewrite Ha0, lookup_replicate_2 by done.
      apply lookup_lt_is_Some. lia.
    + intros x.
      exists (with_heap (<[r0 := js_store j x (row_of st r0)]> (heap st)) st).
      split; [|split].
      * unfold write, bind, outer_row. rewrite Ha0.
        by rewrite lookup_replicate_2.
      * unfold cell. rewrite Hkeep. rewrite lookup_replicate_2 by done.
        unfold row_of at 1. simpl. rewrite lookup_insert_eq. simpl.
        apply js_store_lookup.
      * by apply pp_row_set.
Qed.

Lemma rows_share_one_array_witness :
  let gridsize := or_default 2 2 in
  exists st1,
    allocate gridsize page_load = Ok tt st1
    /\ (forall k st, 1 <= k ->
          final (blocks sample_draws cos_at_zero vec_sub vec_dot sample_limit
                   gridsize (or_default 1 0) k page_load) = Some st ->
          pipeline_point gridsize st)
    /\ forall st, pipeline_point gridsize st ->
         forall a, a = grid \/ a = grid_normals ->
         exists n r, array_length gridsize = Some n /\ a st = Some (replicate n r)
           /\ forall i i' j, i < n -> i' < n ->
                cell a st i j = cell a st i' j
                /\ (j < n -> is_Some (cell a st i j))
                /\ forall x, exists st',
                     write a i j x st = Some st'
                     /\ cell a st' i' j = Some x
                     /\ pipeline_point gridsize st'.
Proof.
  intros gridsize. eexists. split; [reflexivity|].
  refine (rows_share_one_array sample_draws cos_at_zero vec_sub vec_dot sample_limit
            2%float 1%float page_load _ _). reflexivity.
Defined.

(** ** Normalisation *)

Lemma no_nan_zeros n : existsb is_nan (replicate n 0%float) = false.
Proof. induction n; simpl; [done|]. exact IHn. Qed.

Lemma Math_max_zeros n : Math_max (replicate (S n) 0%float) = 0%float.
Proof.
  unfold Math_max. rewrite no_nan_zeros. simpl.
  change (max_step neg_infinity 0) with 0%float.
  induction n; simpl; [done|]. exact IHn.
Qed.

Lemma Math_min_zeros n : Math_min (replicate (S n) 0%float) = 0%float.
Proof.
  unfold Math_min. rewrite no_nan_zeros. simpl.
  change (min_step infinity 0) with 0%float.
  induction n; simpl; [done|]. exact IHn.
Qed.

Lemma iter_map_replicate {A} (f : A -> A) k n x :
  Nat.iter k (map f) (replicate n x) = replicate n (Nat.iter k f x).
Proof.
  induction k; simpl; [done|]. rewrite IHk. clear.
  induction n; simpl; [done|]. by rewrite IHn.
Qed.

(** Rescaling with [max = min = 0] turns 0 into [NaN], and [NaN] stays. *)
Lemma rescale_zero_range k : Nat.iter (S k) (rescale 0 0) 0%float = nan.
Proof. induction k; [reflexivity|]. simpl in *. rewrite IHk. reflexivity. Qed.

Lemma accepts_length argument_limit args n :
  length args = n -> accepts argument_limit args = (N.of_nat n <=? argument_limit)%N.
Proof. by intros <-. Qed.

Lemma forallb_replicate {A} (p : A -> bool) n x :
  forallb p (replicate n x) = (n =? 0) || p x.
Proof.
  induction n as [|n IH]; simpl; [done|]. rewrite IH.
  destruct (p x); [by rewrite orb_true_r | done].
Qed.

(** On a grid whose rows are one array of [n] cells, the normalisation block
    needs [apply] to pass [n] arguments; it then sweeps that array once per
    row index, with [min] taken from the row maxima.  Otherwise the first
    [Math.max.apply] throws and nothing is written. *)
Lemma normalize_shared argument_limit gridsize n r st row :
  array_length gridsize = Some n ->
  grid st = Some (replicate n r) -> heap st !! r = Some row -> length row = n ->
  let max := Math_max (replicate n (Math_max row)) in
  let min := Math_min (replicate n (Math_max row)) in
  normalize_heights argument_limit gridsize st =
  if (N.of_nat n <=? argument_limit)%N
  then Ok tt (with_heap (<[r := Nat.iter n (map (rescale max min)) row]> (heap st)) st)
  else Throw RangeError st.
Proof.
  intros Hn Hg Hh Hl max min.
  apply array_length_trip_count in Hn.
  assert (Hrow : row_of st r = row) by (unfold row_of; by rewrite Hh).
  unfold normalize_heights, bind, grid_map. rewrite Hg.
  rewrite forallb_replicate, Hrow, (accepts_length _ row n Hl).
  destruct (N.leb_spec (N.of_nat n) argument_limit) as [Hle|Hgt].
  - rewrite orb_true_r.
    assert (Hm : map (fun r0 => Math_max (row_of st r0)) (replicate n r)
                 = replicate n (Math_max row)).
    { clear - Hrow. induction n; simpl; [done|]. by rewrite IHn, Hrow. }
    rewrite Hm. unfold apply_to.
    rewrite (accepts_length _ (replicate n (Math_max row)) n)
      by apply length_replicate.
    apply N.leb_le in Hle. rewrite Hle. cbv beta iota. unfold ret at 1.
    rewrite Hg, forallb_replicate, Hrow, (accepts_length _ row n Hl), Hle.
    rewrite orb_true_r. unfold ret at 1. cbv beta iota. fold max min.
    unfold for_lt. rewrite Hn.
    apply (grid_loop (rescale max min) n r n 0 st row Hg Hh Hl). lia.
  - replace (n =? 0) with false by (symmetry; apply Nat.eqb_neq; lia).
    reflexivity.
Qed.

(** With no fault applied the field is all zeros.  For every grid size the
    allocation accepts, the first three blocks of the handler leave [NaN]
    in every elevation when [apply] passes a row of that size; when it does
    not, they end in the [RangeError] of the first [Math.max.apply], with
    every elevation still 0. *)
Theorem no_fault_gives_nan
    random_source Math_cos sub dot argument_limit gridsize n st :
  array_length gridsize = Some n ->
  ((N.of_nat n <= argument_limit)%N ->
   exists st',
     blocks random_source Math_cos sub dot argument_limit gridsize 0 3 st = Ok tt st'
     /\ forall i j, i < n -> j < n -> cell grid st' i j = Some nan)
  /\ ((argument_limit < N.of_nat n)%N ->
      exists st',
        blocks random_source Math_cos sub dot argument_limit gridsize 0 3 st
        = Throw RangeError st'
        /\ forall i j, i < n -> j < n -> cell grid st' i j = Some 0%float).
Proof.
  intros Hn. simpl. unfold bind at 1 3. rewrite (allocate_ok _ _ _ Hn).
  set (r := fresh (dom (heap st))).
  set (h := <[r := replicate n 0%float]> (heap st)).
  set (r' := fresh (dom h)).
  set (st1 := with_grid_normals _ _).
  unfold bind. change (apply_faults _ _ _ _ _ 0%float st1) with (Ok tt st1).
  assert (Hr : heap st1 !! r = Some (replicate n 0%float)).
  { simpl. rewrite lookup_insert_ne by apply fresh_row_distinct.
    apply lookup_insert_eq. }
  cbv beta iota.
  rewrite (normalize_shared argument_limit gridsize n r st1 (replicate n 0%float)
             Hn eq_refl Hr) by apply length_replicate.
  split.
  - intros Hle. apply N.leb_le in Hle. rewrite Hle.
    eexists. split; [reflexivity|].
    intros i j Hi Hj. unfold cell, row_of. simpl.
    rewrite lookup_replicate_2 by done. rewrite lookup_insert_eq. simpl.
    rewrite iter_map_replicate. rewrite lookup_replicate_2 by done. f_equal.
    destruct n as [|n]; [lia|].
    rewrite Math_max_zeros, Math_max_zeros, Math_min_zeros.
    apply rescale_zero_range.
  - intros Hgt. apply N.leb_gt in Hgt. rewrite Hgt.
    eexists. split; [reflexivity|].
    intros i j Hi Hj. unfold cell.
    change (grid st1) with (Some (replicate n r)). cbv beta iota.
    rewrite lookup_replicate_2 by done. unfold row_of. rewrite Hr. simpl.
    by apply lookup_replicate_2.
Qed.

Lemma no_fault_gives_nan_witness :
  array_length 2 = Some 2
  /\ (exists st',
        blocks sample_draws cos_at_zero vec_sub vec_dot sample_limit 2 0 3 page_load
        = Ok tt st'
        /\ forall i j, i < 2 -> j < 2 -> cell grid st' i j = Some nan)
  /\ (exists st',
        blocks sample_draws cos_at_zero vec_sub vec_dot 1%N 2 0 3 page_load
        = Throw RangeError st'
        /\ forall i j, i < 2 -> j < 2 -> cell grid st' i j = Some 0%float).
Proof.
  split; [reflexivity|]. split.
  - apply (proj1 (no_fault_gives_nan sample_draws cos_at_zero vec_sub vec_dot
                    sample_limit 2%float 2 page_load eq_refl)).
    unfold sample_limit. lia.
  - apply (proj2 (no_fault_gives_nan sample_draws cos_at_zero vec_sub vec_dot
                    1%N 2%float 2 page_load eq_refl)).
    lia.
Defined.

(** C1, counterexample: on the 2 by 2 field with no fault, the elevations
    after normalisation are not zero and not finite: each is [NaN]. *)
Lemma flat_field_2_is_not_finite :
  ~ forall st',
      blocks
          sample_draws cos_at_zero vec_sub vec_dot sample_limit 2 0 3 page_load = Ok tt st' ->
      forall i j, i < 2 -> j < 2 ->
        exists x, cell grid st' i j = Some x /\ is_finite x = true.
Proof.
  intros H.
  eassert (Hrun : blocks sample_draws cos_at_zero vec_sub vec_dot sample_limit 2 0 3 page_load
                  = Ok tt _) by (vm_compute; reflexivity).
  destruct (H _ Hrun 0 0) as (x & Hx & Hfin); [lia | lia |].
  vm_compute in Hx. injection Hx as <-. discriminate Hfin.
Qed.

(** C1 (as the code has it). The normalisation block has no guard for a flat
    field.  When every elevation of the handler's grid is the same number
    [v] and [apply] passes a row of the grid, [max] and [min] are both [v],
    every cell is divided by [v - v], and no elevation is left finite; for
    the field of zeros, each becomes [NaN].  When a row is too long for
    [apply], the block ends in the [RangeError] of its first
    [Math.max.apply] and the field is as it was. *)
Theorem flat_field_is_normalized_to_nan argument_limit gridsize n r v st :
  array_length gridsize = Some n ->
  grid st = Some (replicate n r) ->
  heap st !! r = Some (replicate n v) ->
  ((N.of_nat n <= argument_limit)%N ->
   exists st',
     normalize_heights argument_limit gridsize st = Ok tt st'
     /\ forall i j, i < n -> j < n ->
          exists x, cell grid st' i j = Some x
            /\ is_finite x = false
            /\ (v = 0%float -> x = nan))
  /\ ((argument_limit < N.of_nat n)%N ->
      normalize_heights argument_limit gridsize st = Throw RangeError st).
Proof.
  intros Hn Hg Hh.
  rewrite (normalize_shared argument_limit gridsize n r st (replicate n v) Hn Hg Hh)
    by apply length_replicate.
  split.
  - intros Hle. apply N.leb_le in Hle. rewrite Hle.
    eexists. split; [reflexivity|].
    intros i j Hi Hj. unfold cell, row_of. simpl.
    rewrite Hg, lookup_replicate_2 by done. rewrite lookup_insert_eq. simpl.
    rewrite iter_map_replicate, lookup_replicate_2 by done.
    destruct n as [|n]; [lia|].
    rewrite !Math_max_replicate, Math_min_replicate.
    eexists. split; [reflexivity|]. split.
    + simpl. apply rescale_same_not_finite.
    + intros ->. apply rescale_zero_range.
  - intros Hgt. apply N.leb_gt in Hgt. by rewrite Hgt.
Qed.

Lemma flat_field_is_normalized_to_nan_witness :
  exists st r,
    allocate 2 page_load = Ok tt st
    /\ array_length 2 = Some 2
    /\ grid st = Some (replicate 2 r)
    /\ heap st !! r = Some (replicate 2 0%float)
    /\ (exists st',
          normalize_heights sample_limit 2 st = Ok tt st'
          /\ forall i j, i < 2 -> j < 2 ->
               exists x, cell grid st' i j = Some x
                 /\ is_finite x = false
                 /\ (0%float = 0%float -> x = nan))
    /\ normalize_heights 1%N 2 st = Throw RangeError st.
Proof.
  eexists _, _. split; [reflexivity|]. split; [reflexivity|].
  split; [reflexivity|]. split; [reflexivity|]. split.
  - refine (proj1 (flat_field_is_normalized_to_nan sample_limit 2%float 2 _ 0%float _
                     _ _ _) _); [reflexivity.. | unfold sample_limit; lia].
  - refine (proj2 (flat_field_is_normalized_to_nan 1%N 2%float 2 _ 0%float _
                     _ _ _) _); [reflexivity.. | lia].
Defined.

Lemma keeps_for_loop_from P body k : forall i,
  (forall j, i <= j < i + k -> keeps P (body j)) -> keeps P (for_loop k i body).
Proof.
  induction k as [|k IH]; intros i Hb; simpl.
  - apply keeps_ret.
  - apply keeps_bind; [apply Hb; lia | intros _; apply IH].
    intros j Hj. apply Hb. lia.
Qed.

Lemma keeps_shared_adjust n i j f :
  j < n -> keeps (shared_field n) (grid_adjust i j f).
Proof.
  intros Hj st (r & row & Hg & Hh & Hl).
  unfold grid_adjust, bind, outer_row. rewrite Hg.
  destruct (replicate n r !! i) as [r0|] eqn:Hi; [|by exists r, row].
  apply lookup_replicate in Hi as [-> _]. simpl.
  exists r, (js_store j (f (to_number (match row_of st r !! j with
                                        | Some x => Num x
                                        | None => Undefined
                                        end))) row).
  split; [done|]. unfold row_of. rewrite Hh. simpl.
  split; [apply lookup_insert_eq|].
  unfold js_store. replace (j <? length row) with true
    by (symmetry; apply Nat.ltb_lt; lia).
  by rewrite length_insert.
Qed.

Lemma keeps_shared_faults random_source Math_cos sub dot gridsize faults n :
  trip_count gridsize = Some n ->
  keeps (shared_field n) (apply_faults random_source Math_cos sub dot gridsize faults).
Proof.
  intros Hn. unfold apply_faults. apply keeps_for_lt. intros _. unfold apply_fault.
  assert (Hrand : keeps (shared_field n) (Math_random random_source)).
  { intros st (r & row & H). by exists r, row. }
  apply keeps_bind; [done | intros r1].
  apply keeps_bind; [done | intros r2].
  apply keeps_bind; [apply keeps_new_typed_array | intros p].
  apply keeps_bind; [done | intros r3].
  apply keeps_bind; [apply keeps_new_typed_array | intros normal].
  unfold for_lt. rewrite Hn.
  apply keeps_for_loop. intros i. apply keeps_for_loop_from. intros j Hj.
  unfold fault_vertex.
  apply keeps_bind; [apply keeps_new_typed_array | intros vertex].
  apply keeps_bind; [apply keeps_call | intros d].
  apply keeps_bind; [apply keeps_call | intros v].
  destruct (v <? 0)%float; [apply keeps_shared_adjust; lia|].
  destruct (0 <? v)%float; [apply keeps_shared_adjust; lia | apply keeps_ret].
Qed.

(** Whatever the faults did, a run that gets through the normalisation
    block leaves no finite elevation: [max] and [min] are both the maximum
    of the one shared row, and every cell is divided by [max - min]. *)
Theorem normalized_heights_are_never_finite
    random_source Math_cos sub dot argument_limit gridsize faults n st st' :
  array_length gridsize = Some n ->
  blocks random_source Math_cos sub dot argument_limit gridsize faults 3 st = Ok tt st' ->
  forall i j, i < n -> j < n ->
    exists x, cell grid st' i j = Some x /\ is_finite x = false.
Proof.
  intros Hn Hrun i j Hi Hj. simpl in Hrun. unfold bind in Hrun.
  rewrite (allocate_ok _ _ _ Hn) in Hrun.
  set (st1 := with_grid_normals _ _) in Hrun.
  assert (H1 : shared_field n st1).
  { eexists _, _. split; [reflexivity|]. split.
    - simpl. rewrite lookup_insert_ne by apply fresh_row_distinct.
      apply lookup_insert_eq.
    - apply length_replicate. }
  pose proof (keeps_shared_faults random_source Math_cos sub dot gridsize faults n
                (array_length_trip_count _ _ Hn) st1 H1) as H2.
  destruct (apply_faults _ _ _ _ _ _ st1) as [[] st2|e st2|]; [|done|done].
  destruct H2 as (r & row & Hg & Hh & Hl).
  rewrite (normalize_shared argument_limit gridsize n r st2 row Hn Hg Hh Hl) in Hrun.
  destruct (N.of_nat n <=? argument_limit)%N; [|done].
  injection Hrun as <-.
  unfold cell, row_of. simpl. rewrite Hg, lookup_replicate_2 by done.
  rewrite lookup_insert_eq. simpl.
  destruct n as [|n]; [lia|].
  rewrite Math_max_replicate, Math_min_replicate. simpl.
  rewrite list_lookup_fmap.
  destruct (Nat.iter n (map (rescale (Math_max row) (Math_max row))) row !! j)
    as [y|] eqn:Hy.
  - exists (rescale (Math_max row) (Math_max row) y). split; [done|].
    apply rescale_same_not_finite.
  - apply lookup_ge_None in Hy.
    assert (Hlen : forall k, length (Nat.iter k (map (rescale (Math_max row) (Math_max row))) row)
                             = length row).
    { induction k; simpl; [done|]. by rewrite length_map. }
    rewrite Hlen in Hy. lia.
Qed.

Lemma normalized_heights_are_never_finite_witness :
  array_length 2 = Some 2
  /\ exists st',
       blocks sample_draws cos_at_zero vec_sub vec_dot sample_limit 2 1 3 page_load = Ok tt st'
       /\ forall i j, i < 2 -> j < 2 ->
            exists x, cell grid st' i j = Some x /\ is_finite x = false.
Proof.
  split; [reflexivity|]. eexists. split; [vm_compute; reflexivity|].
  apply (normalized_heights_are_never_finite
           sample_draws cos_at_zero vec_sub vec_dot sample_limit 2%float 1%float 2 page_load);
    [reflexivity | vm_compute; reflexivity].
Defined.

(** C6 (as the code has it). After one fault on the 3 by 3 grid the
    normalisation block leaves [NaN] in every elevation, so the range
    [max - min] of the normalised field and its midpoint [(max + min) / 2]
    are [NaN], not 1 and 0: [min] is taken over the row maxima, which makes
    it equal to [max], and the block divides by [max - min = 0]. *)
Theorem normalized_range_is_not_one :
  exists st' r,
    blocks sample_draws cos_at_zero vec_sub vec_dot sample_limit 3 1 3 page_load = Ok tt st'
    /\ grid st' = Some [r; r; r]
    /\ row_of st' r = [nan; nan; nan]
    /\ (Math_max (row_of st' r) - Math_min (row_of st' r))%float = nan
    /\ ((Math_max (row_of st' r) - Math_min (row_of st' r)) =? 1)%float = false
    /\ ((Math_max (row_of st' r) + Math_min (row_of st' r)) / 2 =? 0)%float = false.
Proof.
  eexists _, _. split; [vm_compute; reflexivity|].
  split; [reflexivity|]. split; [reflexivity|]. split; [reflexivity|].
  split; reflexivity.
Qed.

(** ** The normals block *)

(** The first vertex already throws: [gridsize[0][0]] indexes a number. *)
Lemma compute_normals_throws gridsize n st :
  trip_count gridsize = Some (S n) ->
  compute_normals gridsize st =
  Throw TypeError
    (with_w (Num (-1)%float) (with_e (Num (-1)%float)
       (with_s (Num (-1)%float) (with_n (Num (-1)%float) st)))).
Proof.
  intros Hn. unfold compute_normals, for_lt. rewrite Hn. reflexivity.
Qed.

(** C3 (as the code has it). For a grid size of 2 the normals block reads
    no neighbour and writes no normal: at its first vertex it evaluates
    [gridsize[0][0]], which throws a [TypeError], whatever the store.  The
    whole handler ends in that exception, with every cell of
    [grid_normals] still 0. *)
Theorem normals_block_throws_at_first_vertex :
  (forall st,
     compute_normals 2 st =
     Throw TypeError
       (with_w (Num (-1)%float) (with_e (Num (-1)%float)
          (with_s (Num (-1)%float) (with_n (Num (-1)%float) st)))))
  /\ exists st',
       on_submit sample_draws cos_at_zero vec_sub vec_dot sample_limit 2 0 page_load
         = Throw TypeError st'
       /\ forall i j, i < 2 -> j < 2 -> cell grid_normals st' i j = Some 0%float.
Proof.
  split.
  - intros st. apply (compute_normals_throws 2%float 1). reflexivity.
  - eexists. split; [vm_compute; reflexivity|].
    intros [|[|i]] [|[|j]] Hi Hj; try lia; reflexivity.
Qed.

(** ** The handler as a whole *)

Lemma array_length_zero x : array_length x = Some 0 -> falsy x = true.
Proof.
  unfold array_length, integral, trunc, falsy, is_zero.
  rewrite FloatAxioms.eqb_spec. change (Prim2SF zero) with (S754_zero false).
  destruct (Prim2SF x) as [s|s| |s m e]; try discriminate.
  - intros _. apply orb_true_r.
  - destruct (0 <=? e)%Z eqn:He; simpl.
    + assert (0 < Z.pos m * 2 ^ e)%Z by (apply Z.leb_le in He; nia).
      destruct s.
      * destruct (0 <=? - (Z.pos m * 2 ^ e))%Z eqn:E; [lia | discriminate].
      * destruct (0 <=? Z.pos m * 2 ^ e)%Z; try discriminate. simpl.
        destruct (Z.pos m * 2 ^ e <? 2 ^ 32)%Z; try discriminate.
        intros [= E]. lia.
    + apply Z.leb_gt in He.
      destruct (Z.pos m mod 2 ^ (- e) =? 0)%Z eqn:Hd; try discriminate.
      apply Z.eqb_eq in Hd.
      assert (Hp : (0 < 2 ^ (- e))%Z) by (apply Z.pow_pos_nonneg; lia).
      pose proof (Z.div_mod (Z.pos m) (2 ^ (- e)) ltac:(lia)) as Hq.
      rewrite Hd, Z.add_0_r in Hq.
      assert (0 < Z.pos m / 2 ^ (- e))%Z by nia.
      destruct s.
      * destruct (0 <=? - (Z.pos m / 2 ^ (- e)))%Z eqn:E; [lia | discriminate].
      * destruct (0 <=? Z.pos m / 2 ^ (- e))%Z; try discriminate. simpl.
        destruct (Z.pos m / 2 ^ (- e) <? 2 ^ 32)%Z; try discriminate.
        intros [= E]. lia.
Qed.

(** No click ends normally.  A size that is no array length throws at the
    allocation; a row too long for [apply] throws at the normalisation; a
    run that gets through the fault loop and the normalisation throws in
    the normals block, at its first vertex. *)
Theorem on_submit_never_returns random_source Math_cos sub dot argument_limit v f st :
  (exists e st', on_submit random_source Math_cos sub dot argument_limit v f st = Throw e st')
  \/ on_submit random_source Math_cos sub dot argument_limit v f st = Unbounded.
Proof.
  unfold on_submit.
  set (gridsize := or_default v 2). set (faults := or_default f 0).
  assert (Hnf : falsy gridsize = false).
  { unfold gridsize, or_default. by destruct (falsy v) eqn:E. }
  simpl. unfold bind.
  destruct (array_length gridsize) as [n|] eqn:Hn;
    [| rewrite (allocate_fails _ _ Hn); eauto].
  destruct n as [|n]; [apply array_length_zero in Hn; congruence|].
  rewrite (allocate_ok _ _ _ Hn).
  set (st1 := with_grid_normals _ _).
  assert (H1 : shared_field (S n) st1).
  { eexists _, _. split; [reflexivity|]. split.
    - simpl. rewrite lookup_insert_ne by apply fresh_row_distinct.
      apply lookup_insert_eq.
    - exact (length_replicate (S n) 0%float). }
  pose proof (keeps_shared_faults random_source Math_cos sub dot gridsize faults (S n)
                (array_length_trip_count _ _ Hn) st1 H1) as H2.
  destruct (apply_faults _ _ _ _ _ _ st1) as [[] st2|e st2|]; [|eauto|eauto].
  destruct H2 as (r & row & Hg & Hh & Hl).
  rewrite (normalize_shared argument_limit gridsize (S n) r st2 row Hn Hg Hh Hl).
  destruct (N.of_nat (S n) <=? argument_limit)%N; [|eauto].
  rewrite (compute_normals_throws gridsize n _ (array_length_trip_count _ _ Hn)).
  eauto.
Qed.

(** * Further properties of the driver *)

(** ** What the handler and [createTerrain] leave to each other *)

Section Untouched.

(** A property of the store that no assignment of the handler can change. *)
Variable P : store -> Prop.
Hypothesis P_heap : forall st h, P st -> P (with_heap h st).
Hypothesis P_grid : forall st o, P st -> P (with_grid o st).
Hypothesis P_grid_normals : forall st o, P st -> P (with_grid_normals o st).
Hypothesis P_n : forall st v, P st -> P (with_n v st).
Hypothesis P_s : forall st v, P st -> P (with_s v st).
Hypothesis P_e : forall st v, P st -> P (with_e v st).
Hypothesis P_w : forall st v, P st -> P (with_w v st).
Hypothesis P_draws : forall st k, P st -> P (with_draws k st).

Lemma untouched_adjust i j f : keeps P (grid_adjust i j f).
Proof.
  unfold grid_adjust.
  apply keeps_bind; [apply keeps_outer_row | intros r].
  apply keeps_bind; [by intros st H | intros v].
  apply keeps_modify. intros st H. by apply P_heap.
Qed.

Lemma untouched_allocate gridsize : keeps P (allocate gridsize).
Proof.
  intros st H. destruct (array_length gridsize) as [n|] eqn:Hn.
  - rewrite (allocate_ok _ _ _ Hn).
    apply P_grid_normals, P_heap, P_grid, P_heap, H.
  - by rewrite (allocate_fails _ _ Hn).
Qed.

Lemma untouched_faults random_source Math_cos sub dot gridsize faults :
  keeps P (apply_faults random_source Math_cos sub dot gridsize faults).
Proof.
  unfold apply_faults. apply keeps_for_lt. intros _. unfold apply_fault.
  assert (Hrand : keeps P (Math_random random_source))
    by (intros st H; by apply P_draws).
  apply keeps_bind; [done | intros r1].
  apply keeps_bind; [done | intros r2].
  apply keeps_bind; [apply keeps_new_typed_array | intros p].
  apply keeps_bind; [done | intros r3].
  apply keeps_bind; [apply keeps_new_typed_array | intros normal].
  apply keeps_for_lt. intros i. apply keeps_for_lt. intros j.
  unfold fault_vertex.
  apply keeps_bind; [apply keeps_new_typed_array | intros vertex].
  apply keeps_bind; [apply keeps_call | intros d].
  apply keeps_bind; [apply keeps_call | intros v].
  destruct (v <? 0)%float; [apply untouched_adjust|].
  destruct (0 <? v)%float; [apply untouched_adjust | apply keeps_ret].
Qed.

Lemma untouched_normalize argument_limit gridsize :
  keeps P (normalize_heights argument_limit gridsize).
Proof.
  unfold normalize_heights.
  apply keeps_bind; [apply keeps_grid_map | intros maxRow].
  apply keeps_bind; [apply keeps_apply_to | intros max].
  apply keeps_bind; [apply keeps_grid_map | intros minRow].
  apply keeps_bind; [apply keeps_apply_to | intros min].
  apply keeps_for_lt. intros i. apply keeps_for_lt. intros j.
  apply untouched_adjust.
Qed.

Lemma untouched_normals gridsize : keeps P (compute_normals gridsize).
Proof.
  unfold compute_normals. apply keeps_for_lt. intros i. apply keeps_for_lt. intros j.
  assert (Hat : forall a b, keeps P (gridsize_at gridsize a b)).
  { intros a b. unfold gridsize_at, value_get, number_get. apply keeps_throw. }
  assert (Hn : forall v, keeps P (set_n v))
    by (intros v; apply keeps_modify; intros st H; by apply P_n).
  assert (Hs : forall v, keeps P (set_s v))
    by (intros v; apply keeps_modify; intros st H; by apply P_s).
  assert (He : forall v, keeps P (set_e v))
    by (intros v; apply keeps_modify; intros st H; by apply P_e).
  assert (Hw : forall v, keeps P (set_w v))
    by (intros v; apply keeps_modify; intros st H; by apply P_w).
  unfold normal_vertex.
  repeat (apply keeps_bind; [done | intros _]).
  apply keeps_bind.
  { destruct (i =? 0); [|destruct (of_nat i =? gridsize - 1)%float];
      (apply keeps_bind; [apply keeps_bind; [done | done] | intros _]);
      (apply keeps_bind; [done | done]). }
  intros _. apply keeps_bind.
  { destruct (j =? 0); [|destruct (of_nat j =? gridsize - 1)%float];
      (apply keeps_bind; [apply keeps_bind; [done | done] | intros _]);
      (apply keeps_bind; [done | done]). }
  intros _. apply keeps_bind; [apply keeps_outer_row | intros r].
  intros st H. simpl. by apply P_heap.
Qed.

Lemma untouched_on_submit random_source Math_cos sub dot argument_limit v f :
  keeps P (on_submit random_source Math_cos sub dot argument_limit v f).
Proof.
  unfold on_submit. simpl.
  apply keeps_bind; [apply untouched_allocate | intros _].
  apply keeps_bind; [apply untouched_faults | intros _].
  apply keeps_bind; [apply untouched_normalize | intros _].
  apply untouched_normals.
Qed.

End Untouched.

(** A click changes neither [terrain] nor [g], however it ends: nothing the
    handler computes is handed to the mesh. *)
Theorem on_submit_leaves_the_mesh
    random_source Math_cos sub dot argument_limit v f st st' :
  final (on_submit random_source Math_cos sub dot argument_limit v f st) = Some st' ->
  terrain st' = terrain st /\ g st' = g st.
Proof.
  intros Hf.
  pose proof (untouched_on_submit
                (fun s => terrain s = terrain st /\ g s = g st)
                ltac:(by intros) ltac:(by intros) ltac:(by intros)
                ltac:(by intros) ltac:(by intros) ltac:(by intros)
                ltac:(by intros) ltac:(by intros)
                random_source Math_cos sub dot argument_limit v f st
                (conj eq_refl eq_refl)) as H.
  destruct (on_submit _ _ _ _ _ _ _ st) as [[] s|e s|]; simpl in Hf;
    [injection Hf as <- | injection Hf as <- | done]; exact H.
Qed.

Lemma on_submit_leaves_the_mesh_witness :
  exists st',
    final (on_submit sample_draws cos_at_zero vec_sub vec_dot sample_limit 3 1
             (with_g empty_geometry page_load)) = Some st'
    /\ terrain st' = terrain (with_g empty_geometry page_load)
    /\ g st' = g (with_g empty_geometry page_load).
Proof.
  eassert (H : final (on_submit sample_draws cos_at_zero vec_sub vec_dot sample_limit 3 1
                        (with_g empty_geometry page_load)) = Some _)
    by (vm_compute; reflexivity).
  eexists. split; [exact H|].
  exact (on_submit_leaves_the_mesh sample_draws cos_at_zero vec_sub vec_dot sample_limit
           3%float 1%float (with_g empty_geometry page_load) _ H).
Defined.

(** [createTerrain] changes neither the heap nor the two grids, the scratch
    globals or the count of random draws, however it ends. *)
Theorem createTerrain_leaves_the_heights n f st st' :
  final (createTerrain n f st) = Some st' ->
  heap st' = heap st /\ grid st' = grid st /\ grid_normals st' = grid_normals st
  /\ draws st' = draws st
  /\ (var_n st', var_s st', var_e st', var_w st')
     = (var_n st, var_s st, var_e st, var_w st).
Proof.
  destruct (g st) as [gg|] eqn:Hg.
  - rewrite (createTerrain_bound _ _ _ _ Hg). simpl. by intros [= <-].
  - destruct (Z_lt_le_dec 0 (triangle_count n)) as [Hk|Hk].
    + rewrite (createTerrain_unbound _ _ _ Hg Hk). simpl. by intros [= <-].
    + rewrite (createTerrain_no_turn _ _ _ Hk). simpl. by intros [= <-].
Qed.

Lemma createTerrain_leaves_the_heights_witness :
  let st := with_g empty_geometry
              (with_grid [1%positive; 1%positive]
                 (with_heap {[ 1%positive := [0.5%float; 0.25%float] ]} page_load)) in
  exists st',
    final (createTerrain 3 2 st) = Some st'
    /\ heap st' = heap st /\ grid st' = grid st.
Proof.
  intros st.
  eassert (H : final (createTerrain 3 2 st) = Some _) by (vm_compute; reflexivity).
  eexists. split; [exact H|].
  split; apply (createTerrain_leaves_the_heights 3 2%float st _ H).
Defined.

(** ** The fault loop keeps the field level *)

Lemma for_loop_ext body body' k : forall i st,
  (forall j s, body j s = body' j s) ->
  for_loop k i body st = for_loop k i body' st.
Proof.
  induction k as [|k IH]; intros i st H; simpl; [done|].
  unfold bind. rewrite H. destruct (body' i st); try done. by apply IH.
Qed.

Lemma for_loop_idle body k : forall i st,
  (forall j s, body j s = Ok tt s) -> for_loop k i body st = Ok tt st.
Proof.
  induction k as [|k IH]; intros i st H; simpl; [done|].
  unfold bind. rewrite H. by apply IH.
Qed.

Lemma for_loop_throws body e k i st :
  (forall j s, body j s = Throw e s) ->
  for_loop (S k) i body st = Throw e st.
Proof. intros H. simpl. unfold bind. by rewrite H. Qed.

(** The two vertex loops of one fault, on a level field: nothing changes,
    or every cell takes [n] steps of 0.01 the same way. *)
Lemma vertex_loops_level sub dot x p normal n r v st :
  grid st = Some (replicate n r) -> heap st !! r = Some (replicate n v) ->
  exists v', 
    (v' = v \/ v' = Nat.iter n (fun h => h - 0.01)%float v
     \/ v' = Nat.iter n (fun h => h + 0.01)%float v)
    /\ match for_loop n 0 (fun i => for_loop n 0 (fun j =>
               fault_vertex sub dot x p normal i j)) st with
       | Ok _ st' | Throw _ st' =>
           st' = with_heap (<[r := replicate n v']> (heap st)) st
       | Unbounded => False
       end.
Proof.
  intros Hg Hh.
  assert (Hid : st = with_heap (<[r := replicate n v]> (heap st)) st)
    by (rewrite insert_id by done; by rewrite with_heap_id).
  unfold fault_vertex, new_typed_array, bind.
  destruct (to_index x) as [len|].
  2:{ exists v. split; [by left|]. destruct n; simpl; [done|]. unfold bind, throw. done. }
  unfold ret. destruct (sub _ p) as [e|d]; simpl.
  { exists v. split; [by left|]. destruct n; simpl; [done|]. done. }
  destruct (dot d normal) as [e|val]; simpl.
  { exists v. split; [by left|]. destruct n; simpl; [done|]. done. }
  destruct (val <? 0)%float.
  { exists (Nat.iter n (fun h => h - 0.01)%float v). split; [right; by left|].
    rewrite (grid_loop _ n r n 0 st (replicate n v) Hg Hh) by (rewrite ?length_replicate; lia).
    by rewrite iter_map_replicate. }
  destruct (0 <? val)%float.
  { exists (Nat.iter n (fun h => h + 0.01)%float v). split; [right; by right|].
    rewrite (grid_loop _ n r n 0 st (replicate n v) Hg Hh) by (rewrite ?length_replicate; lia).
    by rewrite iter_map_replicate. }
  exists v. split; [by left|].
  rewrite for_loop_idle; [done|]. intros i s. by apply for_loop_idle.
Qed.

Lemma apply_fault_level random_source Math_cos sub dot gridsize n r v st :
  trip_count gridsize = Some n ->
  grid st = Some (replicate n r) -> heap st !! r = Some (replicate n v) ->
  match apply_fault random_source Math_cos sub dot gridsize st with
  | Ok _ st' | Throw _ st' =>
      exists v',
        (v' = v \/ v' = Nat.iter n (fun h => h - 0.01)%float v
         \/ v' = Nat.iter n (fun h => h + 0.01)%float v)
        /\ grid st' = Some (replicate n r)
        /\ heap st' !! r = Some (replicate n v')
  | Unbounded => True
  end.
Proof.
  intros Hn Hg Hh. unfold apply_fault, bind, Math_random, new_typed_array.
  destruct (to_index _) as [lp|]; [|exists v; by auto].
  unfold ret. simpl.
  destruct (to_index _) as [ln|]; [|exists v; by auto].
  unfold for_lt. rewrite Hn.
  set (st3 := with_draws _ _).
  destruct (vertex_loops_level sub dot
              (random_source (draws st) * gridsize)%float
              (TypedArray Float32 (replicate lp 0%float))
              (TypedArray Float32 (replicate ln 0%float)) n r v st3 Hg Hh)
    as (v' & Hv' & Hrun).
  destruct (for_loop n 0 _ st3) as [[] s|e s|]; [| |done];
    subst s; exists v'; (split; [done|]); (split; [done|]);
    simpl; apply lookup_insert_eq.
Qed.

Lemma keeps_level_faults random_source Math_cos sub dot gridsize faults n r :
  trip_count gridsize = Some n ->
  keeps (level_field n r) (apply_faults random_source Math_cos sub dot gridsize faults).
Proof.
  intros Hn. unfold apply_faults. apply keeps_for_lt. intros _ st (Hg & v & Hh).
  pose proof (apply_fault_level random_source Math_cos sub dot gridsize n r v st Hn Hg Hh) as H.
  destruct (apply_fault _ _ _ _ _ st) as [[] s|e s|]; [| |done];
    destruct H as (v' & _ & Hg' & Hh'); split; eauto.
Qed.

Lemma allocate_level gridsize n st :
  array_length gridsize = Some n ->
  exists st1, allocate gridsize st = Ok tt st1
    /\ grid st1 = Some (replicate n (fresh (dom (heap st))))
    /\ heap st1 !! fresh (dom (heap st)) = Some (replicate n 0%float).
Proof.
  intros Hn. rewrite (allocate_ok _ _ _ Hn). eexists. split; [done|].
  split; [done|]. simpl.
  rewrite lookup_insert_ne by apply fresh_row_distinct. apply lookup_insert_eq.
Qed.

(** The fault loop never gives the field relief: however the loop ends,
    and whatever the random source and the helpers are, all elevations are
    one and the same number. *)
Theorem faults_keep_the_field_level
    random_source Math_cos sub dot argument_limit gridsize faults n st st' :
  array_length gridsize = Some n ->
  final (blocks
      random_source Math_cos sub dot argument_limit gridsize faults 2 st) = Some st' ->
  exists v, forall i j, i < n -> j < n -> cell grid st' i j = Some v.
Proof.
  intros Hn. simpl. unfold bind.
  destruct (allocate_level gridsize n st Hn) as (st1 & -> & Hg & Hh).
  pose proof (keeps_level_faults random_source Math_cos sub dot gridsize faults n _
                (array_length_trip_count _ _ Hn) st1
                (conj Hg (ex_intro _ _ Hh))) as H.
  destruct (apply_faults _ _ _ _ _ _ st1) as [[] s|e s|]; simpl; [| |done];
    intros [= <-]; destruct H as (Hg' & v & Hh'); exists v; intros i j Hi Hj;
    unfold cell, row_of; rewrite Hg', lookup_replicate_2 by done;
    rewrite Hh'; simpl; by apply lookup_replicate_2.
Qed.

(** One fault moves all elevations together, and by [gridsize] steps of
    0.01, not by one: each of the [gridsize] passes over the rows steps the
    same array. *)
Theorem one_fault_steps_gridsize_times
    random_source Math_cos sub dot argument_limit gridsize n st st' :
  array_length gridsize = Some n ->
  blocks random_source Math_cos sub dot argument_limit gridsize 1 2 st = Ok tt st' ->
  exists v,
    (forall i j, i < n -> j < n -> cell grid st' i j = Some v)
    /\ (v = 0%float
        \/ v = Nat.iter n (fun h => h - 0.01)%float 0%float
        \/ v = Nat.iter n (fun h => h + 0.01)%float 0%float).
Proof.
  intros Hn. simpl. unfold bind.
  destruct (allocate_level gridsize n st Hn) as (st1 & -> & Hg & Hh).
  unfold apply_faults, for_lt. change (trip_count 1) with (Some 1).
  simpl. unfold bind.
  pose proof (apply_fault_level random_source Math_cos sub dot gridsize n _ _ st1
                (array_length_trip_count _ _ Hn) Hg Hh) as H.
  destruct (apply_fault _ _ _ _ _ st1) as [[] s|e s|]; [|done|done].
  intros [= <-]. destruct H as (v & Hv & Hg' & Hh'). exists v. split; [|done].
  intros i j Hi Hj. unfold cell, row_of. rewrite Hg', lookup_replicate_2 by done.
  rewrite Hh'. simpl. by apply lookup_replicate_2.
Qed.

(** ** Random draws *)

Lemma keeps_vertex_loops P sub dot gridsize x p normal :
  (forall i j f, keeps P (grid_adjust i j f)) ->
  keeps P (for_lt gridsize (fun i => for_lt gridsize (fun j =>
             fault_vertex sub dot x p normal i j))).
Proof.
  intros Hadj. apply keeps_for_lt. intros i. apply keeps_for_lt. intros j.
  unfold fault_vertex.
  apply keeps_bind; [apply keeps_new_typed_array | intros vertex].
  apply keeps_bind; [apply keeps_call | intros d].
  apply keeps_bind; [apply keeps_call | intros v].
  destruct (v <? 0)%float; [apply Hadj|].
  destruct (0 <? v)%float; [apply Hadj | apply keeps_ret].
Qed.

Lemma adjust_keeps_draws d i j f : keeps (fun s => draws s = d) (grid_adjust i j f).
Proof.
  unfold grid_adjust.
  apply keeps_bind; [apply keeps_outer_row | intros r].
  apply keeps_bind; [by intros st H | intros v].
  apply keeps_modify. by intros st H.
Qed.

Lemma apply_fault_draws random_source Math_cos sub dot gridsize st st' :
  apply_fault random_source Math_cos sub dot gridsize st = Ok tt st' ->
  draws st' = draws st + 3.
Proof.
  unfold apply_fault, bind, Math_random, new_typed_array.
  destruct (to_index _) as [lp|]; [|done]. unfold ret. simpl.
  destruct (to_index _) as [ln|]; [|done].
  set (st3 := with_draws _ _). intros Hrun.
  pose proof (keeps_vertex_loops (fun s => draws s = draws st3) sub dot gridsize
                (random_source (draws st) * gridsize)%float
                (TypedArray Float32 (replicate lp 0%float))
                (TypedArray Float32 (replicate ln 0%float))
                (adjust_keeps_draws _) st3 eq_refl) as H.
  rewrite Hrun in H. rewrite H. simpl. lia.
Qed.

Lemma for_loop_draws body c k : forall i st st',
  (forall j s s', body j s = Ok tt s' -> draws s' = draws s + c) ->
  for_loop k i body st = Ok tt st' -> draws st' = draws st + c * k.
Proof.
  induction k as [|k IH]; intros i st st' Hb; simpl.
  - intros [= <-]. lia.
  - unfold bind. destruct (body i st) as [[] s|e s|] eqn:E; try done.
    intros Hrun. rewrite (IH _ _ _ Hb Hrun), (Hb _ _ _ E). lia.
Qed.

(** A fault loop that runs to its end has drawn exactly three random
    numbers per fault: the one behind [y] is drawn and never used. *)
Theorem faults_draw_three_numbers_each
    random_source Math_cos sub dot gridsize faults k st st' :
  trip_count faults = Some k ->
  apply_faults random_source Math_cos sub dot gridsize faults st = Ok tt st' ->
  draws st' = draws st + 3 * k.
Proof.
  intros Hk. unfold apply_faults, for_lt. rewrite Hk.
  apply for_loop_draws. intros _ s s'. apply apply_fault_draws.
Qed.

(** ** What a click leaves alone *)

Lemma adjust_keeps_frame h0 n r r' i j f :
  keeps (click_frame h0 n r r') (grid_adjust i j f).
Proof.
  intros st (Hg & Hgn & Hne & Hr & Hr' & Hz & Hold).
  unfold grid_adjust, bind, outer_row. rewrite Hg.
  destruct (replicate n r !! i) as [r0|] eqn:Hi; [|done].
  apply lookup_replicate in Hi as [-> _]. simpl.
  repeat split; try done; simpl.
  - by rewrite lookup_insert_ne.
  - intros l Hl. rewrite lookup_insert_ne; [by apply Hold|]. by intros ->.
Qed.

Lemma keeps_frame_faults random_source Math_cos sub dot gridsize faults h0 n r r' :
  keeps (click_frame h0 n r r')
        (apply_faults random_source Math_cos sub dot gridsize faults).
Proof.
  unfold apply_faults. apply keeps_for_lt. intros _. unfold apply_fault.
  assert (Hrand : keeps (click_frame h0 n r r') (Math_random random_source))
    by (by intros st H).
  apply keeps_bind; [done | intros r1].
  apply keeps_bind; [done | intros r2].
  apply keeps_bind; [apply keeps_new_typed_array | intros p].
  apply keeps_bind; [done | intros r3].
  apply keeps_bind; [apply keeps_new_typed_array | intros normal].
  apply keeps_vertex_loops. apply adjust_keeps_frame.
Qed.

Lemma keeps_frame_normalize argument_limit gridsize h0 n r r' :
  keeps (click_frame h0 n r r') (normalize_heights argument_limit gridsize).
Proof.
  unfold normalize_heights.
  apply keeps_bind; [apply keeps_grid_map | intros maxRow].
  apply keeps_bind; [apply keeps_apply_to | intros max].
  apply keeps_bind; [apply keeps_grid_map | intros minRow].
  apply keeps_bind; [apply keeps_apply_to | intros min].
  apply keeps_for_lt. intros i. apply keeps_for_lt. intros j.
  apply adjust_keeps_frame.
Qed.

(** The frame holds in whatever store a click ends in. *)
Lemma click_ends_in_frame random_source Math_cos sub dot argument_limit v f st st' :
  final (on_submit random_source Math_cos sub dot argument_limit v f st) = Some st' ->
  (array_length (or_default v 2) = None /\ st' = st)
  \/ exists n r r', array_length (or_default v 2) = Some n
       /\ click_frame (heap st) n r r' st'.
Proof.
  unfold on_submit.
  set (gridsize := or_default v 2). set (faults := or_default f 0).
  assert (Hnf : falsy gridsize = false).
  { unfold gridsize, or_default. by destruct (falsy v) eqn:E. }
  simpl. unfold bind.
  destruct (array_length gridsize) as [n|] eqn:Hn;
    [| rewrite (allocate_fails _ _ Hn); simpl; intros [= <-]; by left].
  destruct n as [|n]; [apply array_length_zero in Hn; congruence|].
  rewrite (allocate_ok _ _ _ Hn).
  set (r := fresh (dom (heap st))).
  set (h := <[r := replicate (S n) 0%float]> (heap st)).
  set (r' := fresh (dom h)).
  set (st1 := with_grid_normals _ _).
  assert (Hr : r ∉ dom (heap st)) by apply is_fresh.
  assert (Hr' : r' ∉ dom h) by apply is_fresh.
  assert (Hne : r <> r') by (intros E; apply Hr'; rewrite <- E; unfold h; set_solver).
  assert (H1 : click_frame (heap st) (S n) r r' st1).
  { repeat split; try done.
    - intros Hin. apply Hr'. unfold h. set_solver.
    - simpl. apply lookup_insert_eq.
    - intros l Hl. simpl.
      assert (r' <> l) by (intros <-; apply Hr'; unfold h; set_solver).
      assert (r <> l) by (by intros <-).
      rewrite lookup_insert_ne by done. unfold h. by rewrite lookup_insert_ne. }
  intros Hf. right. exists (S n), r, r'. split; [done|].
  pose proof (keeps_frame_faults random_source Math_cos sub dot gridsize faults
                _ _ _ _ st1 H1) as H2.
  destruct (apply_faults _ _ _ _ _ _ st1) as [[] st2|e st2|];
    [|simpl in Hf; by injection Hf as <- | done].
  pose proof (keeps_frame_normalize argument_limit gridsize _ _ _ _ st2 H2) as H3.
  destruct (normalize_heights argument_limit gridsize st2) as [[] st3|e st3|];
    [|simpl in Hf; by injection Hf as <- | done].
  rewrite (compute_normals_throws gridsize n _ (array_length_trip_count _ _ Hn)) in Hf.
  simpl in Hf. injection Hf as <-. exact H3.
Qed.

(** A click never writes to an array that existed before it: whatever it
    does and however it ends, every row already on the heap reads as
    before. *)
Theorem click_leaves_older_rows random_source Math_cos sub dot argument_limit v f st st' :
  final (on_submit random_source Math_cos sub dot argument_limit v f st) = Some st' ->
  forall l, l ∈ dom (heap st) -> heap st' !! l = heap st !! l.
Proof.
  intros Hf l Hl.
  destruct (click_ends_in_frame _ _ _ _ _ _ _ _ _ Hf)
    as [[_ ->] | (n & r & r' & _ & H)]; [done|].
  by apply H.
Qed.

(** No click ever stores a normal: in whatever store a click ends after
    its allocation, every cell of [grid_normals] is still 0. *)
Theorem click_stores_no_normal random_source Math_cos sub dot argument_limit v f n st st' :
  array_length (or_default v 2) = Some n ->
  final (on_submit random_source Math_cos sub dot argument_limit v f st) = Some st' ->
  forall i j, i < n -> j < n -> cell grid_normals st' i j = Some 0%float.
Proof.
  intros Hn Hf i j Hi Hj.
  destruct (click_ends_in_frame _ _ _ _ _ _ _ _ _ Hf)
    as [[Hn' _] | (n' & r & r' & Hn' & H)].
  - congruence.
  - rewrite Hn in Hn'. injection Hn' as <-.
    destruct H as (_ & Hgn & _ & _ & _ & Hz & _).
    unfold cell, row_of. rewrite Hgn, lookup_replicate_2 by done.
    rewrite Hz. simpl. by apply lookup_replicate_2.
Qed.

Lemma faults_keep_the_field_level_witness :
  exists st',
    final (blocks
        sample_draws cos_at_zero vec_sub dot_below sample_limit 3 2 2 page_load) = Some st'
    /\ exists v, forall i j, i < 3 -> j < 3 -> cell grid st' i j = Some v.
Proof.
  eassert (H : final (blocks
      sample_draws cos_at_zero vec_sub dot_below sample_limit 3 2 2 page_load)
               = Some _) by (vm_compute; reflexivity).
  eexists. split; [exact H|].
  exact (faults_keep_the_field_level sample_draws cos_at_zero vec_sub dot_below sample_limit
           3%float 2%float 3 page_load _ eq_refl H).
Defined.

Lemma one_fault_steps_gridsize_times_witness :
  exists st' v,
    blocks sample_draws cos_at_zero vec_sub dot_below sample_limit 3 1 2 page_load = Ok tt st'
    /\ (forall i j, i < 3 -> j < 3 -> cell grid st' i j = Some v)
    /\ (v = 0%float
        \/ v = Nat.iter 3 (fun h => h - 0.01)%float 0%float
        \/ v = Nat.iter 3 (fun h => h + 0.01)%float 0%float).
Proof.
  eassert (H : blocks sample_draws cos_at_zero vec_sub dot_below sample_limit 3 1 2 page_load
               = Ok tt _) by (vm_compute; reflexivity).
  destruct (one_fault_steps_gridsize_times sample_draws cos_at_zero vec_sub dot_below sample_limit
              3%float 3 page_load _ eq_refl H) as (v & Hv).
  eexists _, v. split; [exact H | exact Hv].
Defined.

Lemma faults_draw_three_numbers_each_witness :
  let st := with_grid [1%positive; 1%positive; 1%positive]
              (with_heap {[ 1%positive := [0%float; 0%float; 0%float] ]} page_load) in
  exists st',
    apply_faults sample_draws cos_at_zero vec_sub vec_dot 3 1 st = Ok tt st'
    /\ draws st' = draws st + 3 * 1.
Proof.
  intros st.
  eassert (H : apply_faults sample_draws cos_at_zero vec_sub vec_dot 3 1 st = Ok tt _)
    by (vm_compute; reflexivity).
  eexists. split; [exact H|].
  exact (faults_draw_three_numbers_each sample_draws cos_at_zero vec_sub vec_dot
           3%float 1%float 1 st _ eq_refl H).
Defined.

Lemma click_leaves_older_rows_witness :
  let st := with_heap {[ 1%positive := [0.5%float; 0.25%float] ]} page_load in
  exists st',
    final (on_submit sample_draws cos_at_zero vec_sub vec_dot sample_limit 3 1 st) = Some st'
    /\ forall l, l ∈ dom (heap st) -> heap st' !! l = heap st !! l.
Proof.
  intros st.
  eassert (H : final (on_submit sample_draws cos_at_zero vec_sub vec_dot sample_limit 3 1 st)
               = Some _) by (vm_compute; reflexivity).
  eexists. split; [exact H|].
  exact (click_leaves_older_rows sample_draws cos_at_zero vec_sub vec_dot sample_limit
           3%float 1%float st _ H).
Defined.

Lemma click_stores_no_normal_witness :
  exists st',
    final (on_submit
        sample_draws cos_at_zero vec_sub vec_dot sample_limit 3 1 page_load) = Some st'
    /\ forall i j, i < 3 -> j < 3 -> cell grid_normals st' i j = Some 0%float.
Proof.
  eassert (H : final (on_submit
      sample_draws cos_at_zero vec_sub vec_dot sample_limit 3 1 page_load)
               = Some _) by (vm_compute; reflexivity).
  eexists. split; [exact H|].
  exact (click_stores_no_normal sample_draws cos_at_zero vec_sub vec_dot sample_limit
           3%float 1%float 3 page_load _ eq_refl H).
Defined.

(** ** More on [createTerrain] *)

Lemma index_triples_seq k : forall i,
  index_triples i k = map Z.of_nat (seq (3 * i) (3 * k)).
Proof.
  induction k as [|k IH]; intros i.
  - by rewrite Nat.mul_0_r.
  - rewrite index_triples_snoc, IH.
    replace (3 * S k) with (S (S (S (3 * k)))) by lia.
    replace (3 * S i) with (S (S (S (3 * i)))) by lia.
    simpl. repeat f_equal; lia.
Qed.

(** The index list [createTerrain] returns is 0, 1, 2, ... in order: each
    triangle has three indices of its own and none is used twice. *)
Theorem createTerrain_indices_count_up n f st gg :
  g st = Some gg ->
  exists t st', createTerrain n f st = Ok t st'
    /\ triangles t = map Z.of_nat (seq 0 (3 * Z.to_nat (triangle_count n)))
    /\ NoDup (triangles t).
Proof.
  intros Hg. rewrite (createTerrain_bound _ _ _ _ Hg). eexists _, _.
  split; [reflexivity|]. simpl. rewrite index_triples_seq. split; [done|].
  apply NoDup_fmap_2; [apply Nat2Z.inj' | apply NoDup_ListNoDup, seq_NoDup].
Qed.

Lemma createTerrain_indices_count_up_witness :
  exists t st',
    createTerrain 3 2 (with_g empty_geometry page_load) = Ok t st'
    /\ triangles t = map Z.of_nat (seq 0 (3 * Z.to_nat (triangle_count 3)))
    /\ NoDup (triangles t).
Proof.
  exact (createTerrain_indices_count_up 3 2%float (with_g empty_geometry page_load)
           empty_geometry eq_refl).
Defined.

(** The size is never checked: with [g] bound every integer size gives a
    mesh of 2 (gridsize - 1)^2 triangles, zero and the negative sizes
    included, and only the size 1 gives the empty mesh. *)
Theorem createTerrain_takes_any_size n f st gg :
  g st = Some gg ->
  exists t st', createTerrain n f st = Ok t st'
    /\ Z.of_nat (length (triangles t)) = (3 * (2 * (n - 1) * (n - 1)))%Z
    /\ (triangles t = [] <-> n = 1%Z).
Proof.
  intros Hg. rewrite (createTerrain_bound _ _ _ _ Hg). eexists _, _.
  split; [reflexivity|]. simpl.
  assert (Hl : Z.of_nat (length (index_triples 0 (Z.to_nat (triangle_count n))))
               = (3 * (2 * (n - 1) * (n - 1)))%Z).
  { rewrite length_index_triples. unfold triangle_count. nia. }
  split; [done|]. split.
  - intros E. rewrite E in Hl. simpl in Hl. nia.
  - intros ->. reflexivity.
Qed.

Lemma createTerrain_takes_any_size_witness :
  exists t st',
    createTerrain (-1) 0 (with_g empty_geometry page_load) = Ok t st'
    /\ Z.of_nat (length (triangles t)) = (3 * (2 * (-1 - 1) * (-1 - 1)))%Z
    /\ (triangles t = [] <-> (-1)%Z = 1%Z).
Proof.
  exact (createTerrain_takes_any_size (-1) 0%float (with_g empty_geometry page_load)
           empty_geometry eq_refl).
Defined.

(** Each call starts [terrain] afresh and appends to [g]: a second call
    with the same size returns the same mesh, and [g] then holds the
    position triples of both calls, one after the other. *)
Theorem createTerrain_twice n f f' st gg t st1 :
  g st = Some gg ->
  createTerrain n f st = Ok t st1 ->
  exists st2 gg2,
    createTerrain n f' st1 = Ok t st2
    /\ g st2 = Some gg2
    /\ attr_position gg2 =
       attr_position gg
       ++ position_triples n 0 (Z.to_nat (triangle_count n))
       ++ position_triples n 0 (Z.to_nat (triangle_count n))
    /\ terrain st2 = Some t.
Proof.
  intros Hg. rewrite (createTerrain_bound _ _ _ _ Hg). intros [= <- <-].
  erewrite createTerrain_bound by reflexivity.
  eexists _, _. split; [reflexivity|]. split; [reflexivity|]. simpl.
  split; [by rewrite <- app_assoc | done].
Qed.

Lemma createTerrain_twice_witness :
  exists t st1 st2 gg2,
    createTerrain 2 0 (with_g empty_geometry page_load) = Ok t st1
    /\ createTerrain 2 5 st1 = Ok t st2
    /\ g st2 = Some gg2
    /\ attr_position gg2 =
       position_triples 2 0 (Z.to_nat (triangle_count 2))
       ++ position_triples 2 0 (Z.to_nat (triangle_count 2)).
Proof.
  eassert (H : createTerrain 2 0 (with_g empty_geometry page_load) = Ok _ _)
    by (vm_compute; reflexivity).
  destruct (createTerrain_twice 2 0%float 5%float (with_g empty_geometry page_load)
              empty_geometry _ _ eq_refl H) as (st2 & gg2 & H1 & H2 & H3 & _).
  eexists _, _, st2, gg2. split; [exact H|]. split; [exact H1|].
  split; [exact H2 | exact H3].
Defined.

(** ** [setupGeometry] *)

Lemma upload_attribute_at geom i a c :
  mesh_attributes geom !! i = Some a ->
  upload_attribute geom i c =
  let c' := GL.Context (GL.calls c ++ upload_calls (GL.next_handle c) i [a])
                       (S (GL.next_handle c)) in
  match a with
  | [] => GL.Raised (GL.Builtin TypeError) c'
  | _ => GL.Done tt c'
  end.
Proof.
  intros Ha. unfold upload_attribute, GL.bind, GL.create, GL.emit. simpl.
  rewrite Ha. destruct a as [|[x|xs] rest]; simpl;
    rewrite <- !app_assoc; reflexivity.
Qed.

Lemma upload_loop geom : forall rest i c,
  drop i (mesh_attributes geom) = rest ->
  GL.for_loop (length rest) i (upload_attribute geom) c =
  let h := GL.next_handle c in
  let log := GL.calls c ++ upload_calls h i rest in
  match first_empty rest with
  | None => GL.Done tt (GL.Context log (h + length rest))
  | Some k => GL.Raised (GL.Builtin TypeError) (GL.Context log (h + S k))
  end.
Proof.
  induction rest as [|a rest IH]; intros i c Hd.
  - simpl. rewrite app_nil_r, Nat.add_0_r. by destruct c.
  - assert (Ha : mesh_attributes geom !! i = Some a).
    { rewrite <- (Nat.add_0_r i), <- lookup_drop, Hd. done. }
    assert (Hr : drop (S i) (mesh_attributes geom) = rest).
    { rewrite (drop_S _ _ _ Ha) in Hd. by injection Hd. }
    cbn [length GL.for_loop]. unfold GL.bind at 1.
    rewrite (upload_attribute_at _ _ _ _ Ha).
    destruct a as [|it a'].
    + simpl. by rewrite Nat.add_1_r.
    + cbv zeta. cbv iota. rewrite (IH _ _ Hr). cbn [GL.next_handle GL.calls].
      cbn [first_empty]. destruct (first_empty rest) as [k|]; simpl;
        rewrite <- !app_assoc; simpl; repeat f_equal; lia.
Qed.

Lemma setupGeometry_run geom c :
  let h := GL.next_handle c in
  let attrs := mesh_attributes geom in
  let log := GL.calls c ++ [GL.createVertexArray h; GL.bindVertexArray h]
             ++ upload_calls (S h) 0 attrs in
  setupGeometry geom c =
  match first_empty attrs with
  | Some k => GL.Raised (GL.Builtin TypeError) (GL.Context log (h + 2 + k))
  | None =>
      let ix := map GL.to_uint16 (flat (mesh_triangles geom)) in
      let b := S h + length attrs in
      GL.Done (Drawable GL.TRIANGLES (length ix) GL.UNSIGNED_SHORT h)
        (GL.Context (log ++ [GL.createBuffer b;
                             GL.bindBuffer GL.ELEMENT_ARRAY_BUFFER b;
                             GL.bufferData GL.ELEMENT_ARRAY_BUFFER (GL.Uint16Data ix)])
                    (S b))
  end.
Proof.
  intros h attrs log. unfold setupGeometry.
  unfold GL.bind at 1. unfold GL.create at 1.
  unfold GL.bind at 1. unfold GL.emit at 1.
  unfold GL.bind at 1.
  rewrite (upload_loop geom (mesh_attributes geom) 0 _ eq_refl).
  cbn [GL.next_handle GL.calls]. fold attrs. fold h.
  destruct (first_empty attrs) as [k|].
  - cbv zeta. unfold log. rewrite <- !app_assoc. simpl. repeat f_equal. lia.
  - cbv zeta. unfold GL.bind, GL.create, GL.emit, GL.ret. simpl.
    unfold log. rewrite <- !app_assoc. simpl. repeat f_equal.
Qed.

Lemma first_empty_None attrs :
  first_empty attrs = None <-> Forall (fun a => a <> []) attrs.
Proof.
  induction attrs as [|a attrs IH]; simpl.
  - split; [constructor | done].
  - destruct a as [|it a].
    + split; [done|]. intros H. by inversion H.
    + rewrite fmap_None, IH. split.
      * intros H. by constructor.
      * intros H. by inversion H.
Qed.

Lemma first_empty_Some attrs k :
  first_empty attrs = Some k ->
  attrs !! k = Some [] /\ forall j a, j < k -> attrs !! j = Some a -> a <> [].
Proof.
  revert k. induction attrs as [|a attrs IH]; intros k; simpl; [done|].
  destruct a as [|it a].
  - intros [= <-]. split; [done|]. intros; lia.
  - destruct (first_empty attrs) as [k'|]; simpl; [|done].
    intros [= <-]. destruct (IH k' eq_refl) as [H1 H2]. split; [done|].
    intros [|j] b Hj; simpl.
    + by intros [= <-].
    + apply H2. lia.
Qed.

(** [setupGeometry] returns exactly when no attribute array is empty: the
    size of an attribute is read off its first element, and an array
    without one makes the call throw. *)
Theorem setupGeometry_returns_iff geom c :
  (exists d c', setupGeometry geom c = GL.Done d c')
  <-> Forall (fun a => a <> []) (mesh_attributes geom).
Proof.
  rewrite setupGeometry_run. cbv zeta. rewrite <- first_empty_None.
  destruct (first_empty _) as [k|]; split; try done.
  - by intros (d & c' & ?).
  - intros _. by eexists _, _.
Qed.

(** When [setupGeometry] throws, it is a [TypeError] at the first empty
    attribute array: the arrays before it are uploaded and enabled, the
    empty one has its buffer made and filled with no data, and neither a
    later attribute nor the index buffer is reached. *)
Theorem setupGeometry_stops_at_first_empty geom c e c' :
  setupGeometry geom c = GL.Raised e c' ->
  e = GL.Builtin TypeError
  /\ exists k,
       mesh_attributes geom !! k = Some []
       /\ (forall j a, j < k -> mesh_attributes geom !! j = Some a -> a <> [])
       /\ GL.next_handle c' = GL.next_handle c + 2 + k
       /\ last (GL.calls c')
          = Some (GL.bufferData GL.ARRAY_BUFFER (GL.Float32Data []))
       /\ forall d, GL.bufferData GL.ELEMENT_ARRAY_BUFFER d ∉
                    drop (length (GL.calls c)) (GL.calls c').
Proof.
  rewrite setupGeometry_run. cbv zeta.
  destruct (first_empty _) as [k|] eqn:E; [|done].
  intros [= <- <-]. split; [done|]. exists k.
  destruct (first_empty_Some _ _ E) as [H1 H2].
  split; [done|]. split; [done|]. split; [done|]. cbn [GL.calls].
  split.
  - assert (Hl : forall b i attrs, first_empty attrs = Some k ->
              last (upload_calls b i attrs)
              = Some (GL.bufferData GL.ARRAY_BUFFER (GL.Float32Data []))).
    { clear. intros b i attrs. revert k b i.
      induction attrs as [|a attrs IH]; intros k b i; simpl; [done|].
      destruct a as [|it a]; [done|].
      destruct (first_empty attrs) as [k'|] eqn:E; simpl; [|done].
      intros _. specialize (IH k' (S b) (S i) eq_refl).
      destruct (upload_calls (S b) (S i) attrs); [done|]. exact IH. }
    specialize (Hl (S (GL.next_handle c)) 0 _ E).
    rewrite last_app.
    destruct (upload_calls _ _ _) as [|x l]; [done|].
    change (last (GL.createVertexArray (GL.next_handle c)
                  :: GL.bindVertexArray (GL.next_handle c) :: x :: l))
      with (last (x :: l)).
    by rewrite Hl.
  - intros d. rewrite drop_app_length. intros Hin.
    repeat (apply elem_of_cons in Hin as [Hin|Hin]; [done|]).
    clear -Hin. revert Hin.
    generalize (S (GL.next_handle c)) 0.
    induction (mesh_attributes geom) as [|a attrs IH]; intros b i; simpl.
    + by intros ?%elem_of_nil.
    + intros Hin.
      repeat (apply elem_of_cons in Hin as [Hin|Hin]; [done|]).
      destruct a as [|it a]; [by apply elem_of_nil in Hin|].
      repeat (apply elem_of_cons in Hin as [Hin|Hin]; [done|]).
      by apply IH in Hin.
Qed.

Lemma setupGeometry_stops_at_first_empty_witness :
  let geom := MeshObject (mesh_triangles sample_mesh)
                (mesh_attributes sample_mesh ++ [[]; [Scalar (GL.Int 1)]]) in
  exists e c',
    setupGeometry geom blank_context = GL.Raised e c'
    /\ e = GL.Builtin TypeError
    /\ exists k, mesh_attributes geom !! k = Some []
                 /\ GL.next_handle c' = GL.next_handle blank_context + 2 + k.
Proof.
  intros geom.
  eassert (H : setupGeometry geom blank_context = GL.Raised _ _)
    by (vm_compute; reflexivity).
  destruct (setupGeometry_stops_at_first_empty geom blank_context _ _ H)
    as (He & k & H1 & _ & H2 & _).
  eexists _, _. split; [exact H|]. split; [exact He|].
  exists k. split; [exact H1 | exact H2].
Defined.

(** A mesh that [setupGeometry] accepts costs one vertex array and one
    buffer per attribute array and one more for the indices; the count it
    returns is the number of indices after flattening, three to a triangle
    when the triangles are given as triples. *)
Theorem setupGeometry_count_and_handles geom c d c' :
  setupGeometry geom c = GL.Done d c' ->
  count d = length (flat (mesh_triangles geom))
  /\ (Forall (fun it => exists a b c, it = Vector [a; b; c]) (mesh_triangles geom) ->
      count d = 3 * length (mesh_triangles geom))
  /\ vao d = GL.next_handle c
  /\ GL.next_handle c' = GL.next_handle c + length (mesh_attributes geom) + 2.
Proof.
  rewrite setupGeometry_run. cbv zeta.
  destruct (first_empty _) as [k|]; [done|]. intros [= <- <-]. simpl.
  rewrite length_map. split; [done|]. split; [|split; [done | lia]].
  induction 1 as [|it l (x & y & z & ->) _ IH]; [done|].
  unfold flat in *. simpl. rewrite IH. lia.
Qed.

Lemma setupGeometry_count_and_handles_witness :
  exists d c',
    setupGeometry sample_mesh blank_context = GL.Done d c'
    /\ count d = 3 * length (mesh_triangles sample_mesh)
    /\ GL.next_handle c' = 0 + length (mesh_attributes sample_mesh) + 2.
Proof.
  eassert (H : setupGeometry sample_mesh blank_context = GL.Done _ _)
    by (vm_compute; reflexivity).
  destruct (setupGeometry_count_and_handles sample_mesh blank_context _ _ H)
    as (_ & H1 & _ & H2).
  eexists _, _. split; [exact H|]. split; [|exact H2].
  apply H1. repeat constructor; by eexists _, _, _.
Defined.

(** The indices are stored as 16-bit numbers without a check: two index
    lists that agree modulo 65536 give the same calls and the same result,
    so a mesh with more than 65536 vertices draws with wrapped indices. *)
Theorem setupGeometry_wraps_indices zs zs' attrs c :
  Forall2 (fun z z' => exists k, z' = (z + 65536 * k)%Z) zs zs' ->
  setupGeometry (MeshObject (map (fun z => Scalar (GL.Int z)) zs') attrs) c
  = setupGeometry (MeshObject (map (fun z => Scalar (GL.Int z)) zs) attrs) c.
Proof.
  intros H. rewrite !setupGeometry_run. cbv zeta. simpl.
  assert (E : map GL.to_uint16 (flat (map (fun z => Scalar (GL.Int z)) zs'))
              = map GL.to_uint16 (flat (map (fun z => Scalar (GL.Int z)) zs))).
  { induction H as [|z z' l l' (k & ->) _ IH]; [done|].
    unfold flat in *. simpl. rewrite IH. f_equal.
    rewrite Z.mul_comm. apply Z_mod_plus_full. }
  by rewrite E.
Qed.

Lemma setupGeometry_wraps_indices_witness :
  setupGeometry
    (MeshObject (map (fun z => Scalar (GL.Int z)) [65536; 65537; 131074]%Z)
                (mesh_attributes sample_mesh)) blank_context
  = setupGeometry
      (MeshObject (map (fun z => Scalar (GL.Int z)) [0; 1; 2]%Z)
                  (mesh_attributes sample_mesh)) blank_context.
Proof.
  apply (setupGeometry_wraps_indices [0; 1; 2]%Z [65536; 65537; 131074]%Z).
  repeat constructor; [by exists 1%Z | by exists 1%Z | by exists 2%Z].
Defined.

Lemma upload_calls_at attrs : forall b i j a,
  first_empty attrs = None ->
  attrs !! j = Some a ->
  exists it rest, a = it :: rest
    /\ GL.bufferData GL.ARRAY_BUFFER (GL.Float32Data (map GL.fround (flat a)))
         ∈ upload_calls b i attrs
    /\ GL.vertexAttribPointer (i + j)
         (match it with Scalar _ => None | Vector xs => Some (length xs) end)
         ∈ upload_calls b i attrs
    /\ GL.enableVertexAttribArray (i + j) ∈ upload_calls b i attrs.
Proof.
  induction attrs as [|a0 attrs IH]; intros b i j a He Hj; [done|].
  simpl in He. destruct a0 as [|it0 rest0]; [done|].
  apply fmap_None in He.
  destruct j as [|j]; simpl in Hj.
  - injection Hj as <-. exists it0, rest0. rewrite Nat.add_0_r.
    split; [done|]. cbn [upload_calls app].
    repeat split; repeat (apply elem_of_cons; first [by left | right]).
  - destruct (IH (S b) (S i) j a He Hj) as (it & rest & -> & H1 & H2 & H3).
    exists it, rest. split; [done|].
    replace (i + S j) with (S i + j) by lia. cbn [upload_calls app].
    repeat split; do 5 (apply elem_of_cons; right); done.
Qed.

(** A mesh that [setupGeometry] accepts has every attribute array
    uploaded, rounded to binary32, and enabled under its position in
    [attributes]; the size given for it is the length of its first element
    alone, and [undefined] when that element is a number. *)
Theorem setupGeometry_uploads_every_attribute geom c d c' i a :
  setupGeometry geom c = GL.Done d c' ->
  mesh_attributes geom !! i = Some a ->
  exists it rest, a = it :: rest
    /\ GL.bufferData GL.ARRAY_BUFFER (GL.Float32Data (map GL.fround (flat a)))
         ∈ GL.calls c'
    /\ GL.vertexAttribPointer i
         (match it with Scalar _ => None | Vector xs => Some (length xs) end)
         ∈ GL.calls c'
    /\ GL.enableVertexAttribArray i ∈ GL.calls c'.
Proof.
  rewrite setupGeometry_run. cbv zeta.
  destruct (first_empty _) as [k|] eqn:E; [done|]. intros [= <- <-] Ha.
  destruct (upload_calls_at _ (S (GL.next_handle c)) 0 i a E Ha)
    as (it & rest & -> & H1 & H2 & H3).
  exists it, rest. split; [done|]. cbn [GL.calls].
  repeat split; apply elem_of_app; left; apply elem_of_app; right;
    do 2 (apply elem_of_cons; right); done.
Qed.

Lemma setupGeometry_uploads_every_attribute_witness :
  exists d c',
    setupGeometry sample_mesh blank_context = GL.Done d c'
    /\ GL.vertexAttribPointer 1 (Some 4) ∈ GL.calls c'
    /\ GL.enableVertexAttribArray 1 ∈ GL.calls c'.
Proof.
  eassert (H : setupGeometry sample_mesh blank_context = GL.Done _ _)
    by (vm_compute; reflexivity).
  destruct (setupGeometry_uploads_every_attribute sample_mesh blank_context _ _ 1 _
              H eq_refl) as (it & rest & E & _ & H1 & H2).
  injection E as <- _.
  eexists _, _. split; [exact H|]. split; [exact H1 | exact H2].
Defined.

Lemma createTerrain_result n f st t st' :
  createTerrain n f st = Ok t st' -> attr_position t = [] /\ attr_color t = [].
Proof.
  destruct (g st) as [gg|] eqn:Hg.
  - rewrite (createTerrain_bound _ _ _ _ Hg). by intros [= <- <-].
  - destruct (Z_lt_le_dec 0 (triangle_count n)) as [Hk|Hk].
    + by rewrite (createTerrain_unbound _ _ _ Hg Hk).
    + rewrite (createTerrain_no_turn _ _ _ Hk). by intros [= <- <-].
Qed.

(** [setupGeometry(createTerrain(gridsize, faults))] never gives a mesh to
    draw: whatever [createTerrain] returns has an empty position array, so
    [setupGeometry] makes the vertex array and one buffer, hands that buffer
    no data and throws a [TypeError]; no attribute is enabled and no index
    reaches the context. *)
Theorem setupGeometry_of_createTerrain_throws n f st t st' c :
  createTerrain n f st = Ok t st' ->
  let h := GL.next_handle c in
  setupGeometry (as_mesh_object t) c =
  GL.Raised (GL.Builtin TypeError)
    (GL.Context (GL.calls c ++
                 [GL.createVertexArray h; GL.bindVertexArray h;
                  GL.createBuffer (S h); GL.bindBuffer GL.ARRAY_BUFFER (S h);
                  GL.bufferData GL.ARRAY_BUFFER (GL.Float32Data [])])
                (S (S h))).
Proof.
  intros H h. destruct (createTerrain_result _ _ _ _ _ H) as [Hp Hc].
  rewrite setupGeometry_run. cbv zeta. unfold as_mesh_object. simpl.
  rewrite Hp. simpl. fold h. repeat f_equal. lia.
Qed.

Lemma setupGeometry_of_createTerrain_throws_witness :
  exists t st' c',
    createTerrain 3 2 (with_g empty_geometry page_load) = Ok t st'
    /\ setupGeometry (as_mesh_object t) blank_context
       = GL.Raised (GL.Builtin TypeError) c'.
Proof.
  eassert (H : createTerrain 3 2 (with_g empty_geometry page_load) = Ok _ _)
    by (vm_compute; reflexivity).
  eexists _, _, _. split; [exact H|].
  exact (setupGeometry_of_createTerrain_throws 3 2%float _ _ _ blank_context H).
Defined.

(** ** [compile] *)

Section CompileProperties.

Variable compile_status : GL.shader_type -> string -> bool.
Variable shader_info_log : GL.shader_type -> string -> string.
Variable link_status : string -> string -> bool.
Variable program_info_log : string -> string -> string.
Variable active_uniforms : string -> string -> nat.
Variable active_uniform_name : string -> string -> nat -> option string.
Variable uniform_location : string -> string -> string -> option nat.

#[local] Abbreviation collect :=
  (collect_uniforms active_uniform_name uniform_location).

Lemma collect_ends vs fs : forall k i u c,
  (exists u', collect vs fs k i u c = GL.Done u' c
     /\ forall j, i <= j < i + k -> is_Some (active_uniform_name vs fs j))
  \/ (collect vs fs k i u c = GL.Raised (GL.Builtin TypeError) c
      /\ exists j, i <= j < i + k /\ active_uniform_name vs fs j = None).
Proof.
  induction k as [|k IH]; intros i u c; simpl.
  - left. eexists. split; [done|]. intros; lia.
  - destruct (active_uniform_name vs fs i) as [name|] eqn:E.
    + destruct (IH (S i) (set_uniform name (uniform_location vs fs name) u) c)
        as [(u' & H1 & H2)|(H1 & j & Hj & H2)].
      * left. exists u'. split; [done|]. intros j Hj.
        destruct (decide (j = i)) as [->|]; [by rewrite E|]. apply H2. lia.
      * right. split; [done|]. exists j. split; [lia | done].
    + right. split; [done|]. exists i. split; [lia | done].
Qed.

Lemma set_uniform_lookup name l u name' :
  set_uniform name l u !! name' =
  if decide (name = name' /\ name <> "__proto__") then Some l else u !! name'.
Proof.
  unfold set_uniform. destruct (String.eqb_spec name "__proto__") as [->|Hn].
  - by rewrite decide_False by (by intros [_ ?]).
  - destruct (decide (name = name')) as [->|Hne].
    + rewrite decide_True by done. apply lookup_insert_eq.
    + rewrite decide_False by (by intros [? _]). by apply lookup_insert_ne.
Qed.

Lemma collect_keeps vs fs name : forall k i u c u' c',
  collect vs fs k i u c = GL.Done u' c' ->
  u !! name = Some (uniform_location vs fs name) ->
  u' !! name = Some (uniform_location vs fs name).
Proof.
  induction k as [|k IH]; intros i u c u' c'; simpl.
  - by intros [= <- _].
  - destruct (active_uniform_name vs fs i) as [name0|]; [|done].
    intros H Hu. eapply IH; [exact H|]. rewrite set_uniform_lookup.
    destruct (decide _) as [[-> _]|]; done.
Qed.

Lemma collect_new vs fs name : forall k i u c u' c' j,
  collect vs fs k i u c = GL.Done u' c' ->
  i <= j < i + k -> active_uniform_name vs fs j = Some name ->
  name <> "__proto__" ->
  u' !! name = Some (uniform_location vs fs name).
Proof.
  induction k as [|k IH]; intros i u c u' c' j; simpl; [lia|].
  destruct (active_uniform_name vs fs i) as [name0|] eqn:E; [|done].
  intros H Hj Hname Hp. destruct (decide (j = i)) as [->|Hne].
  - rewrite E in Hname. injection Hname as ->.
    eapply collect_keeps; [exact H|]. rewrite set_uniform_lookup.
    by rewrite decide_True.
  - eapply IH; [exact H | | exact Hname | done]. lia.
Qed.

Lemma collect_old vs fs name l : forall k i u c u' c',
  collect vs fs k i u c = GL.Done u' c' ->
  u' !! name = Some l ->
  u !! name = Some l
  \/ (name <> "__proto__" /\ l = uniform_location vs fs name
      /\ exists j, i <= j < i + k /\ active_uniform_name vs fs j = Some name).
Proof.
  induction k as [|k IH]; intros i u c u' c'; simpl.
  - intros [= <- _]. by left.
  - destruct (active_uniform_name vs fs i) as [name0|] eqn:E; [|done].
    intros H Hl. destruct (IH _ _ _ _ _ H Hl) as [Hu|(Hp & -> & j & Hj & Hn)].
    + rewrite set_uniform_lookup in Hu.
      destruct (decide _) as [[-> Hp]|]; [|by left].
      injection Hu as <-. right. split; [done|]. split; [done|].
      exists i. split; [lia | done].
    + right. split; [done|]. split; [done|]. exists j. split; [lia | done].
Qed.

Lemma compile_run vs fs c :
  let h := GL.next_handle c in
  let log1 := GL.calls c ++ [GL.createShader GL.VERTEX_SHADER h;
                             GL.shaderSource h vs; GL.compileShader h] in
  let log2 := log1 ++ [GL.createShader GL.FRAGMENT_SHADER (S h);
                       GL.shaderSource (S h) fs; GL.compileShader (S h)] in
  let log3 := log2 ++ [GL.createProgram (S (S h)); GL.attachShader (S (S h)) h;
                       GL.attachShader (S (S h)) (S h); GL.linkProgram (S (S h))] in
  compile compile_status shader_info_log link_status program_info_log
    active_uniforms active_uniform_name uniform_location vs fs c =
  if negb (compile_status GL.VERTEX_SHADER vs) then
    GL.Raised (GL.Error "Vertex shader compilation failed")
      (GL.Context (log1 ++ [GL.console_error (shader_info_log GL.VERTEX_SHADER vs)])
                  (S h))
  else if negb (compile_status GL.FRAGMENT_SHADER fs) then
    GL.Raised (GL.Error "Fragment shader compilation failed")
      (GL.Context (log2 ++ [GL.console_error (shader_info_log GL.FRAGMENT_SHADER fs)])
                  (S (S h)))
  else if negb (link_status vs fs) then
    GL.Raised (GL.Error "Linking failed")
      (GL.Context (log3 ++ [GL.console_error (program_info_log vs fs)])
                  (S (S (S h))))
  else
    match collect vs fs (active_uniforms vs fs) 0 ∅
            (GL.Context log3 (S (S (S h)))) with
    | GL.Done u c' => GL.Done (Program (S (S h)) u) c'
    | GL.Raised e c' => GL.Raised e c'
    end.
Proof.
  intros h log1 log2 log3. unfold compile.
  unfold GL.bind, GL.create, GL.emit, GL.ret, GL.raise. cbn [GL.calls GL.next_handle].
  fold h. unfold log3, log2, log1.
  destruct (compile_status GL.VERTEX_SHADER vs); simpl;
    [|by rewrite <- !app_assoc].
  destruct (compile_status GL.FRAGMENT_SHADER fs); simpl;
    [|by rewrite <- !app_assoc].
  destruct (link_status vs fs); simpl;
    [|by rewrite <- !app_assoc].
  rewrite <- !app_assoc. reflexivity.
Qed.

(** With a context that names every active uniform, [compile] returns a
    program exactly when both sources compile and the two link; the program
    is the third object made, after the two shaders. *)
Theorem compile_returns_iff vs fs c :
  (forall j, j < active_uniforms vs fs -> is_Some (active_uniform_name vs fs j)) ->
  (exists p c',
     compile compile_status shader_info_log link_status program_info_log
       active_uniforms active_uniform_name uniform_location vs fs c = GL.Done p c'
     /\ program_handle p = GL.next_handle c + 2
     /\ GL.next_handle c' = GL.next_handle c + 3)
  <-> compile_status GL.VERTEX_SHADER vs = true
      /\ compile_status GL.FRAGMENT_SHADER fs = true
      /\ link_status vs fs = true.
Proof.
  intros Hnames. rewrite compile_run. cbv zeta.
  destruct (compile_status GL.VERTEX_SHADER vs); cbn [negb];
    [|split; [by intros (? & ? & ? & _) | by intros [? _]]].
  destruct (compile_status GL.FRAGMENT_SHADER fs); cbn [negb];
    [|split; [by intros (? & ? & ? & _) | by intros (_ & ? & _)]].
  destruct (link_status vs fs); cbn [negb];
    [|split; [by intros (? & ? & ? & _) | by intros (_ & _ & ?)]].
  split; [done | intros _].
  match goal with |- context [collect vs fs ?k 0 ?u ?c0] =>
    destruct (collect_ends vs fs k 0 u c0) as [(u' & -> & _)|(_ & j & Hj & Hn)]
  end.
  - eexists _, _. split; [done|]. simpl. lia.
  - destruct (Hnames j ltac:(lia)) as [x Hx]. congruence.
Qed.

(** The [uniforms] of a program [compile] returns hold exactly the names
    the context reports as active, each with the location the context gives
    for it, but for the name [__proto__], which never becomes a key. *)
Theorem compile_uniforms vs fs c p c' name l :
  compile compile_status shader_info_log link_status program_info_log
    active_uniforms active_uniform_name uniform_location vs fs c = GL.Done p c' ->
  uniforms p !! name = Some l
  <-> name <> "__proto__" /\ l = uniform_location vs fs name
      /\ exists j, j < active_uniforms vs fs
                   /\ active_uniform_name vs fs j = Some name.
Proof.
  rewrite compile_run. cbv zeta.
  destruct (compile_status GL.VERTEX_SHADER vs); cbn [negb]; [|done].
  destruct (compile_status GL.FRAGMENT_SHADER fs); cbn [negb]; [|done].
  destruct (link_status vs fs); cbn [negb]; [|done].
  destruct (collect vs fs _ 0 ∅ _) as [u c1|e c1] eqn:E; [|done].
  intros [= <- <-]. simpl. split.
  - intros Hl. destruct (collect_old _ _ _ _ _ _ _ _ _ _ E Hl)
      as [Hu|(Hp & -> & j & Hj & Hn)]; [done|].
    split; [done|]. split; [done|]. exists j. split; [lia | done].
  - intros (Hp & -> & j & Hj & Hn).
    eapply collect_new; [exact E | | exact Hn | done]. lia.
Qed.

(** [compile] reports the first stage that fails and stops there: when the
    vertex shader does not compile the fragment shader is never made, when
    a shader does not compile no program is made, and the last thing
    recorded is the log of the failed stage, written to the console. *)
Theorem compile_reports_first_failure vs fs c message c' :
  compile compile_status shader_info_log link_status program_info_log
    active_uniforms active_uniform_name uniform_location vs fs c
  = GL.Raised (GL.Error message) c' ->
  (message = "Vertex shader compilation failed"
   /\ compile_status GL.VERTEX_SHADER vs = false
   /\ GL.next_handle c' = GL.next_handle c + 1
   /\ last (GL.calls c')
      = Some (GL.console_error (shader_info_log GL.VERTEX_SHADER vs)))
  \/ (message = "Fragment shader compilation failed"
      /\ compile_status GL.VERTEX_SHADER vs = true
      /\ compile_status GL.FRAGMENT_SHADER fs = false
      /\ GL.next_handle c' = GL.next_handle c + 2
      /\ last (GL.calls c')
         = Some (GL.console_error (shader_info_log GL.FRAGMENT_SHADER fs)))
  \/ (message = "Linking failed"
      /\ compile_status GL.VERTEX_SHADER vs = true
      /\ compile_status GL.FRAGMENT_SHADER fs = true
      /\ link_status vs fs = false
      /\ GL.next_handle c' = GL.next_handle c + 3
      /\ last (GL.calls c') = Some (GL.console_error (program_info_log vs fs))).
Proof.
  rewrite compile_run. cbv zeta.
  destruct (compile_status GL.VERTEX_SHADER vs); cbn [negb].
  2: { intros [= <- <-]. left. cbn [GL.calls GL.next_handle].
       rewrite last_snoc. repeat split; try done. lia. }
  destruct (compile_status GL.FRAGMENT_SHADER fs); cbn [negb].
  2: { intros [= <- <-]. right; left. cbn [GL.calls GL.next_handle].
       rewrite last_snoc. repeat split; try done. lia. }
  destruct (link_status vs fs); cbn [negb].
  2: { intros [= <- <-]. right; right. cbn [GL.calls GL.next_handle].
       rewrite last_snoc. repeat split; try done. lia. }
  match goal with |- context [collect vs fs ?k 0 ?u ?c0] =>
    destruct (collect_ends vs fs k 0 u c0) as [(u' & -> & _)|(-> & _)]
  end; done.
Qed.

End CompileProperties.

Lemma compile_returns_iff_witness :
  (exists p c', sample_compile "void main(){}" "void main(){}" blank_context
                = GL.Done p c'
                /\ program_handle p = GL.next_handle blank_context + 2
                /\ GL.next_handle c' = GL.next_handle blank_context + 3)
  <-> sample_compile_status GL.VERTEX_SHADER "void main(){}" = true
      /\ sample_compile_status GL.FRAGMENT_SHADER "void main(){}" = true
      /\ sample_link_status "void main(){}" "void main(){}" = true.
Proof.
  apply (compile_returns_iff sample_compile_status sample_shader_log
           sample_link_status sample_program_log sample_active_uniforms
           sample_uniform_name sample_uniform_location).
  intros [|[|j]] Hj; [by eexists | by eexists |].
  unfold sample_active_uniforms in Hj. lia.
Defined.

Lemma compile_uniforms_witness :
  exists p c',
    sample_compile "void main(){}" "void main(){}" blank_context = GL.Done p c'
    /\ (uniforms p !! "p" = Some (Some 1)
        <-> "p" <> "__proto__"
            /\ Some 1 = sample_uniform_location "void main(){}" "void main(){}" "p"
            /\ exists j, j < 2 /\ sample_uniform_name "void main(){}" "void main(){}" j
                                  = Some "p").
Proof.
  eassert (H : sample_compile "void main(){}" "void main(){}" blank_context
               = GL.Done _ _) by (vm_compute; reflexivity).
  eexists _, _. split; [exact H|].
  exact (compile_uniforms sample_compile_status sample_shader_log
           sample_link_status sample_program_log sample_active_uniforms
           sample_uniform_name sample_uniform_location
           "void main(){}" "void main(){}" blank_context _ _ "p" (Some 1) H).
Defined.

Lemma compile_reports_first_failure_witness :
  exists c',
    sample_compile EmptyString EmptyString blank_context
    = GL.Raised (GL.Error "Vertex shader compilation failed") c'
    /\ GL.next_handle c' = 1.
Proof.
  eassert (H : sample_compile EmptyString EmptyString blank_context
               = GL.Raised (GL.Error _) _) by (vm_compute; reflexivity).
  destruct (compile_reports_first_failure sample_compile_status sample_shader_log
              sample_link_status sample_program_log sample_active_uniforms
              sample_uniform_name sample_uniform_location
              EmptyString EmptyString blank_context _ _ H)
    as [(_ & _ & Hh & _)|[(Hd & _)|(Hd & _)]];
    [|discriminate Hd|discriminate Hd].
  eexists. split; [exact H | exact Hh].
Defined.
